(** * firegraph: the response cache in front of the GraphQL endpoint

    A shallow embedding of [functions/src/tools/graphql-middleware.ts]
    (the revision with the injectable [KeyValueCache]) and the properties
    of its caching decision engine.

    Modelling conventions.
    - A JavaScript string is a [string]; each character stands for one
      UTF-16 code unit below 256.
    - A JavaScript number is an integer ([Z]) or [NaN].  The numbers the
      middleware computes with are cache-control ages in seconds and
      [Date.now()] in milliseconds, both integers well inside the range
      where doubles are exact; fractions, exponents and infinities are
      outside the fragment.
    - [undefined] is [None] in [jsval := option value].
    - A handler is a computation in a state and exception monad over the
      store and the response object; [Date.now()] is a parameter, read
      once per handler call.
    - [console.log] is not modelled. *)

From Stdlib Require Import ZArith NArith List Bool Ascii String Lia.
From Stdlib Require Import QArith Qround.
From Stdlib Require Import DecimalString DecimalZ DecimalN DecimalPos DecimalFacts.
Import ListNotations.

Local Open Scope string_scope.
Local Open Scope Z_scope.

(** ** Strings *)

Module Str.

(** The code unit of a character. *)
Definition code (c : ascii) : N := N_of_ascii c.

(** [String.prototype.length]. *)
Definition len (s : string) : Z := Z.of_nat (String.length s).

(** [Buffer.byteLength(s, 'utf8')]: one byte below 128, two from 128 to 255. *)
Fixpoint byteLength (s : string) : Z :=
  match s with
  | EmptyString => 0
  | String c r => (if (code c <? 128)%N then 1 else 2) + byteLength r
  end.

End Str.

(** ** Numbers *)

Inductive num := Fin (z : Z) | NaN.

(** [Number.prototype.toString] on the integers of the fragment. *)
Definition Z_toString (z : Z) : string := NilZero.string_of_int (Z.to_int z).

Definition num_toString (n : num) : string :=
  match n with Fin z => Z_toString z | NaN => "NaN" end.

Definition num_mul (a b : num) : num :=
  match a, b with Fin x, Fin y => Fin (x * y) | _, _ => NaN end.

Definition num_sub (a b : num) : num :=
  match a, b with Fin x, Fin y => Fin (x - y) | _, _ => NaN end.

(** [a < b] on numbers: a comparison with [NaN] is false. *)
Definition num_ltb (a b : num) : bool :=
  match a, b with Fin x, Fin y => x <? y | _, _ => false end.

(** [Math.round]: the nearest integer, halves rounded up. *)
Definition Math_round (q : Q) : Z := Qfloor (q + (1 # 2)).

(** ** Values *)

Unset Elimination Schemes.
Inductive value :=
| VNull
| VBool (b : bool)
| VNum (n : num)
| VStr (s : string)
| VArr (l : list value)
| VObj (o : list (string * value)).

Set Elimination Schemes.

(** [None] is [undefined]. *)
Definition jsval := option value.

Section ValueInd.
Variable P : value -> Prop.
Hypothesis Hnull : P VNull.
Hypothesis Hbool : forall b, P (VBool b).
Hypothesis Hnum : forall n, P (VNum n).
Hypothesis Hstr : forall s, P (VStr s).
Hypothesis Harr : forall l, Forall P l -> P (VArr l).
Hypothesis Hobj : forall o, Forall (fun kv => P (snd kv)) o -> P (VObj o).

Fixpoint value_ind' (v : value) : P v :=
  match v with
  | VNull => Hnull
  | VBool b => Hbool b
  | VNum n => Hnum n
  | VStr s => Hstr s
  | VArr l =>
      Harr l ((fix go (l : list value) : Forall P l :=
                 match l with
                 | [] => Forall_nil _
                 | x :: r => Forall_cons x (value_ind' x) (go r)
                 end) l)
  | VObj o =>
      Hobj o ((fix go (o : list (string * value)) : Forall (fun kv => P (snd kv)) o :=
                 match o with
                 | [] => Forall_nil _
                 | x :: r => Forall_cons x (value_ind' (snd x)) (go r)
                 end) o)
  end.
End ValueInd.

(** ** Exceptions *)

Inductive exn := SyntaxError | TypeError.

Inductive res (A : Type) :=
| Ok (a : A)
| Throw (e : exn).
Arguments Ok {A} a.
Arguments Throw {A} e.

Definition res_bind {A B} (r : res A) (k : A -> res B) : res B :=
  match r with Ok a => k a | Throw e => Throw e end.

(** ** Characters and digits *)

Definition dquote : ascii := ascii_of_N 34.
Definition bslash : ascii := ascii_of_N 92.

Definition is_digit (c : ascii) : bool :=
  ((48 <=? Str.code c) && (Str.code c <=? 57))%N.

Definition digit_cons (c : ascii) (d : Decimal.uint) : Decimal.uint :=
  match (Str.code c - 48)%N with
  | 0 => Decimal.D0 d | 1 => Decimal.D1 d | 2 => Decimal.D2 d
  | 3 => Decimal.D3 d | 4 => Decimal.D4 d | 5 => Decimal.D5 d
  | 6 => Decimal.D6 d | 7 => Decimal.D7 d | 8 => Decimal.D8 d
  | _ => Decimal.D9 d
  end%N.

(** The longest prefix of decimal digits, and what follows it. *)
Fixpoint read_digits (s : string) : Decimal.uint * string :=
  match s with
  | String c r =>
      if is_digit c
      then let (d, rest) := read_digits r in (digit_cons c d, rest)
      else (Decimal.Nil, s)
  | EmptyString => (Decimal.Nil, EmptyString)
  end.

(** [\s] of a regular expression, and [StrWhiteSpaceChar] of the string to
    number conversion: TAB, LF, VT, FF, CR, SP and NBSP. *)
Definition is_space (c : ascii) : bool :=
  let n := Str.code c in
  ((9 <=? n) && (n <=? 13) || (n =? 32) || (n =? 160))%N.

Fixpoint trim_left (s : string) : string :=
  match s with
  | String c r => if is_space c then trim_left r else s
  | EmptyString => EmptyString
  end.

Fixpoint rev_string (s acc : string) : string :=
  match s with
  | String c r => rev_string r (String c acc)
  | EmptyString => acc
  end.

Definition trim (s : string) : string :=
  rev_string (trim_left (rev_string (trim_left s) "")) "".

(** ** Coercions *)

(** [ToBoolean]. *)
Definition truthy (v : jsval) : bool :=
  match v with
  | None | Some VNull => false
  | Some (VBool b) => b
  | Some (VNum (Fin z)) => negb (z =? 0)
  | Some (VNum NaN) => false
  | Some (VStr s) => negb (s =? "")%string
  | Some (VArr _) | Some (VObj _) => true
  end.

(** [ToString] of a value; an array is joined with commas, [null] elements
    giving the empty string. *)
Fixpoint value_toString (v : value) : string :=
  match v with
  | VNull => "null"
  | VBool true => "true"
  | VBool false => "false"
  | VNum n => num_toString n
  | VStr s => s
  | VArr l =>
      let elt x := match x with VNull => "" | _ => value_toString x end in
      (fix join (l : list value) : string :=
         match l with
         | [] => ""
         | [x] => elt x
         | x :: r => elt x ++ "," ++ join r
         end) l
  | VObj _ => "[object Object]"
  end.

Definition ToString (v : jsval) : string :=
  match v with None => "undefined" | Some x => value_toString x end.

(** [StringToNumber] on the integers: surrounding white space is dropped,
    the empty string is 0, a signed run of digits is its value, and what is
    not a numeric literal is [NaN].  Literals with a fraction, an exponent
    or a radix prefix are outside the fragment. *)
Definition StringToNumber (s : string) : num :=
  let t := trim s in
  let digits u :=
    match read_digits u with
    | (Decimal.Nil, _) => None
    | (d, EmptyString) => Some (Z.of_N (N.of_uint d))
    | _ => None
    end in
  match t with
  | EmptyString => Fin 0
  | String c r =>
      if (Str.code c =? 45)%N then
        match digits r with Some z => Fin (- z) | None => NaN end
      else if (Str.code c =? 43)%N then
        match digits r with Some z => Fin z | None => NaN end
      else match digits t with Some z => Fin z | None => NaN end
  end.

(** [ToNumber]. *)
Definition ToNumber (v : jsval) : num :=
  match v with
  | None => NaN
  | Some VNull => Fin 0
  | Some (VBool b) => Fin (if b then 1 else 0)
  | Some (VNum n) => n
  | Some (VStr s) => StringToNumber s
  | Some (VArr _ as x) | Some (VObj _ as x) => StringToNumber (value_toString x)
  end.

(** [a < b]: two strings compare by code units, anything else as numbers. *)
Definition js_lt (a b : jsval) : bool :=
  let prim v :=
    match v with
    | Some (VArr _ as x) | Some (VObj _ as x) => Some (VStr (value_toString x))
    | _ => v
    end in
  match prim a, prim b with
  | Some (VStr x), Some (VStr y) => String.ltb x y
  | x, y => num_ltb (ToNumber x) (ToNumber y)
  end.

(** ** Objects *)

(** The own properties of an object are kept in enumeration order: array
    indices in ascending order first, then the other keys in the order
    they were created. *)
Definition props := list (string * value).

Fixpoint lookup (k : string) (o : props) : jsval :=
  match o with
  | [] => None
  | (k', v) :: r => if (k' =? k)%string then Some v else lookup k r
  end.

(** A canonical numeric string below [2^32 - 1]. *)
Definition array_index (k : string) : option N :=
  match read_digits k with
  | (Decimal.Nil, _) => None
  | (d, EmptyString) =>
      let n := N.of_uint d in
      if ((NilZero.string_of_uint (N.to_uint n) =? k)%string && (n <? 4294967295)%N)%bool
      then Some n else None
  | _ => None
  end.

Fixpoint replace_prop (k : string) (v : value) (o : props) : props :=
  match o with
  | [] => []
  | (k', v') :: r =>
      if (k' =? k)%string then (k', v) :: r else (k', v') :: replace_prop k v r
  end.

(** Where a new array index goes: before the first key that is not an
    index or is a larger one. *)
Fixpoint insert_index (i : N) (k : string) (v : value) (o : props) : props :=
  match o with
  | [] => [(k, v)]
  | (k', v') :: r =>
      match array_index k' with
      | Some j => if (j <? i)%N then (k', v') :: insert_index i k v r
                  else (k, v) :: o
      | None => (k, v) :: o
      end
  end.

(** [o[k] = v] on an ordinary object. *)
Definition obj_set (k : string) (v : value) (o : props) : props :=
  match lookup k o with
  | Some _ => replace_prop k v o
  | None =>
      match array_index k with
      | Some i => insert_index i k v o
      | None => (o ++ [(k, v)])%list
      end
  end.

(** [delete o[k]]. *)
Definition obj_delete (k : string) (o : props) : props :=
  filter (fun kv => negb (fst kv =? k)%string) o.

(** [v[k]] for the property names the middleware reads; [null] and
    [undefined] have no properties.  Inherited properties are not
    modelled: none of those names is one. *)
Definition getProp (k : string) (v : jsval) : res jsval :=
  match v with
  | None | Some VNull => Throw TypeError
  | Some (VObj o) => Ok (lookup k o)
  | Some (VArr l) =>
      if (k =? "length")%string then Ok (Some (VNum (Fin (Z.of_nat (List.length l)))))
      else match array_index k with
           | Some i => Ok (nth_error l (N.to_nat i))
           | None => Ok None
           end
  | Some (VStr s) =>
      if (k =? "length")%string then Ok (Some (VNum (Fin (Str.len s))))
      else match array_index k with
           | Some i =>
               Ok (match String.get (N.to_nat i) s with
                   | Some c => Some (VStr (String c EmptyString))
                   | None => None
                   end)
           | None => Ok None
           end
  | Some (VBool _) | Some (VNum _) => Ok None
  end.

(** ** JSON.stringify *)

Definition hex_digit (n : N) : ascii :=
  if (n <? 10)%N then ascii_of_N (48 + n) else ascii_of_N (87 + n).

(** One character inside a JSON string literal. *)
Definition escape_char (c : ascii) : string :=
  let n := Str.code c in
  if (n =? 34)%N then String bslash (String dquote "")
  else if (n =? 92)%N then String bslash (String bslash "")
  else if (n =? 8)%N then String bslash "b"
  else if (n =? 12)%N then String bslash "f"
  else if (n =? 10)%N then String bslash "n"
  else if (n =? 13)%N then String bslash "r"
  else if (n =? 9)%N then String bslash "t"
  else if (n <? 32)%N then
    String bslash ("u00" ++ String (hex_digit (n / 16)) (String (hex_digit (n mod 16)) ""))
  else String c "".

Fixpoint escape (s : string) : string :=
  match s with
  | EmptyString => EmptyString
  | String c r => escape_char c ++ escape r
  end.

Definition quote (s : string) : string :=
  String dquote (escape s ++ String dquote "").

Fixpoint join (sep : string) (l : list string) : string :=
  match l with
  | [] => ""
  | [x] => x
  | x :: r => x ++ sep ++ join sep r
  end.

(** [JSON.stringify(v)]; [NaN] is written [null]. *)
Fixpoint JSON_stringify (v : value) : string :=
  match v with
  | VNull => "null"
  | VBool true => "true"
  | VBool false => "false"
  | VNum (Fin z) => Z_toString z
  | VNum NaN => "null"
  | VStr s => quote s
  | VArr l => "[" ++ join "," (map JSON_stringify l) ++ "]"
  | VObj o =>
      "{" ++ join "," (map (fun kv => quote (fst kv) ++ ":" ++ JSON_stringify (snd kv)) o)
          ++ "}"
  end.

(** ** JSON.parse *)

(** JSON white space: SP, TAB, LF, CR. *)
Definition is_json_ws (c : ascii) : bool :=
  let n := Str.code c in
  ((n =? 32) || (n =? 9) || (n =? 10) || (n =? 13))%N.

Fixpoint skip_ws (s : string) : string :=
  match s with
  | String c r => if is_json_ws c then skip_ws r else s
  | EmptyString => EmptyString
  end.

Definition hex_value (c : ascii) : option N :=
  let n := Str.code c in
  if ((48 <=? n) && (n <=? 57))%N then Some (n - 48)%N
  else if ((97 <=? n) && (n <=? 102))%N then Some (n - 87)%N
  else if ((65 <=? n) && (n <=? 70))%N then Some (n - 55)%N
  else None.

(** The character a one-letter escape stands for. *)
Definition unescape (c : ascii) : option ascii :=
  let n := Str.code c in
  if (n =? 34)%N then Some dquote
  else if (n =? 92)%N then Some bslash
  else if (n =? 47)%N then Some (ascii_of_N 47)
  else if (n =? 98)%N then Some (ascii_of_N 8)
  else if (n =? 102)%N then Some (ascii_of_N 12)
  else if (n =? 110)%N then Some (ascii_of_N 10)
  else if (n =? 114)%N then Some (ascii_of_N 13)
  else if (n =? 116)%N then Some (ascii_of_N 9)
  else None.

(** The characters of a string literal after its opening quote, up to and
    including the closing one.  A [\u] escape of a code unit above 255 is
    outside the fragment. *)
Fixpoint parse_chars (s : string) : option (string * string) :=
  match s with
  | EmptyString => None
  | String c r =>
      if (Str.code c =? 34)%N then Some (EmptyString, r)
      else if (Str.code c =? 92)%N then
        match r with
        | EmptyString => None
        | String e r1 =>
            if (Str.code e =? 117)%N then
              match r1 with
              | String h1 (String h2 (String h3 (String h4 r2))) =>
                  match hex_value h1, hex_value h2, hex_value h3, hex_value h4 with
                  | Some a, Some b, Some c', Some d =>
                      let n := (((a * 16 + b) * 16 + c') * 16 + d)%N in
                      if (n <? 256)%N then
                        match parse_chars r2 with
                        | Some (t, rest) => Some (String (ascii_of_N n) t, rest)
                        | None => None
                        end
                      else None
                  | _, _, _, _ => None
                  end
              | _ => None
              end
            else
              match unescape e with
              | Some x =>
                  match parse_chars r1 with
                  | Some (t, rest) => Some (String x t, rest)
                  | None => None
                  end
              | None => None
              end
        end
      else if (Str.code c <? 32)%N then None
      else
        match parse_chars r with
        | Some (t, rest) => Some (String c t, rest)
        | None => None
        end
  end.

(** An integer literal: an optional minus sign, then [0] or digits that do
    not start with [0]. *)
Definition parse_number (s : string) : option (Z * string) :=
  let (neg, body) :=
    match s with
    | String c r => if (Str.code c =? 45)%N then (true, r) else (false, s)
    | EmptyString => (false, s)
    end in
  match read_digits body with
  | (Decimal.Nil, _) => None
  | (Decimal.D0 Decimal.Nil, rest) => Some (0, rest)
  | (Decimal.D0 _, _) => None
  | (d, rest) =>
      let z := Z.of_N (N.of_uint d) in
      Some (if neg then - z else z, rest)
  end.

Fixpoint strip_prefix (p s : string) : option string :=
  match p, s with
  | EmptyString, _ => Some s
  | String a p', String b s' => if Ascii.eqb a b then strip_prefix p' s' else None
  | String _ _, EmptyString => None
  end.

(** The elements of an array after the first [[], up to the closing []]. *)
Fixpoint parse_elems (pv : string -> option (value * string)) (fuel : nat)
    (s : string) (acc : list value) : option (list value * string) :=
  match fuel with
  | O => None
  | S f =>
      match pv s with
      | None => None
      | Some (v, r) =>
          match skip_ws r with
          | EmptyString => None
          | String c r' =>
              if (Str.code c =? 44)%N then parse_elems pv f r' (v :: acc)
              else if (Str.code c =? 93)%N then Some (rev (v :: acc), r')
              else None
          end
      end
  end.

(** The members of an object, each stored with [obj_set] as it is read, so
    that a repeated key keeps its first place and its last value. *)
Fixpoint parse_members (pv : string -> option (value * string)) (fuel : nat)
    (s : string) (acc : props) : option (props * string) :=
  match fuel with
  | O => None
  | S f =>
      match skip_ws s with
      | EmptyString => None
      | String c r =>
          if (Str.code c =? 34)%N then
            match parse_chars r with
            | None => None
            | Some (k, r1) =>
                match skip_ws r1 with
                | EmptyString => None
                | String c1 r2 =>
                    if (Str.code c1 =? 58)%N then
                      match pv r2 with
                      | None => None
                      | Some (v, r3) =>
                          match skip_ws r3 with
                          | EmptyString => None
                          | String c3 r4 =>
                              if (Str.code c3 =? 44)%N
                              then parse_members pv f r4 (obj_set k v acc)
                              else if (Str.code c3 =? 125)%N
                              then Some (obj_set k v acc, r4)
                              else None
                          end
                      end
                    else None
                end
            end
          else None
      end
  end.

Fixpoint parse_val (fuel : nat) (s : string) : option (value * string) :=
  match fuel with
  | O => None
  | S f =>
      match skip_ws s with
      | EmptyString => None
      | String c r =>
          let n := Str.code c in
          if (n =? 34)%N then
            match parse_chars r with
            | Some (t, rest) => Some (VStr t, rest)
            | None => None
            end
          else if (n =? 91)%N then
            match skip_ws r with
            | EmptyString => None
            | String c' r' =>
                if (Str.code c' =? 93)%N then Some (VArr [], r')
                else match parse_elems (parse_val f) f r [] with
                     | Some (l, rest) => Some (VArr l, rest)
                     | None => None
                     end
            end
          else if (n =? 123)%N then
            match skip_ws r with
            | EmptyString => None
            | String c' r' =>
                if (Str.code c' =? 125)%N then Some (VObj [], r')
                else match parse_members (parse_val f) f r [] with
                     | Some (o, rest) => Some (VObj o, rest)
                     | None => None
                     end
            end
          else if (n =? 110)%N then
            match strip_prefix "ull" r with
            | Some rest => Some (VNull, rest)
            | None => None
            end
          else if (n =? 116)%N then
            match strip_prefix "rue" r with
            | Some rest => Some (VBool true, rest)
            | None => None
            end
          else if (n =? 102)%N then
            match strip_prefix "alse" r with
            | Some rest => Some (VBool false, rest)
            | None => None
            end
          else
            match parse_number (String c r) with
            | Some (z, rest) => Some (VNum (Fin z), rest)
            | None => None
            end
      end
  end.

(** [JSON.parse(text)]: one value, white space around it, nothing else.
    Every call of the parser consumes a character, so the length of the
    text bounds the recursion.  Numbers with a fraction or an exponent are
    outside the fragment and are refused. *)
Definition JSON_parse (text : string) : res value :=
  match parse_val (S (String.length text)) text with
  | Some (v, rest) =>
      match skip_ws rest with
      | EmptyString => Ok v
      | String _ _ => Throw SyntaxError
      end
  | None => Throw SyntaxError
  end.

(** Writes a JSON text with ['] in place of the double quote. *)
Fixpoint unq (s : string) : string :=
  match s with
  | EmptyString => EmptyString
  | String c r => String (if (Str.code c =? 39)%N then dquote else c) (unq r)
  end.

(** ** SHA-256 (the [hash.js] digest the fingerprint is made with) *)

Module SHA256.
Local Open Scope N_scope.

Definition w32 (x : N) : N := N.land x 0xffffffff.
Definition add (x y : N) : N := w32 (x + y).
Definition rotr (n x : N) : N := N.lor (N.shiftr x n) (w32 (N.shiftl x (32 - n))).
Definition shr (n x : N) : N := N.shiftr x n.
Definition lnot (x : N) : N := N.lxor x 0xffffffff.

Definition Ch (x y z : N) : N := N.lxor (N.land x y) (N.land (lnot x) z).
Definition Maj (x y z : N) : N :=
  N.lxor (N.lxor (N.land x y) (N.land x z)) (N.land y z).
Definition Sigma0 (x : N) : N := N.lxor (N.lxor (rotr 2 x) (rotr 13 x)) (rotr 22 x).
Definition Sigma1 (x : N) : N := N.lxor (N.lxor (rotr 6 x) (rotr 11 x)) (rotr 25 x).
Definition sigma0 (x : N) : N := N.lxor (N.lxor (rotr 7 x) (rotr 18 x)) (shr 3 x).
Definition sigma1 (x : N) : N := N.lxor (N.lxor (rotr 17 x) (rotr 19 x)) (shr 10 x).

(** The first 64 primes. *)
Definition primes : list N :=
  [2; 3; 5; 7; 11; 13; 17; 19; 23; 29; 31; 37; 41; 43; 47; 53; 59; 61; 67; 71; 73;
   79; 83; 89; 97; 101; 103; 107; 109; 113; 127; 131; 137; 139; 149; 151; 157;
   163; 167; 173; 179; 181; 191; 193; 197; 199; 211; 223; 227; 229; 233; 239;
   241; 251; 257; 263; 269; 271; 277; 281; 283; 293; 307; 311].

(** The integer cube root, one bit at a time from bit [b - 1] down. *)
Fixpoint cube_root (b : nat) (n r : N) : N :=
  match b with
  | O => r
  | S b' =>
      let c := r + N.shiftl 1 (N.of_nat b') in
      cube_root b' n (if c * c * c <=? n then c else r)
  end.

(** The round constants: the first 32 bits of the fractional parts of the
    cube roots of the primes. *)
Definition K : list N :=
  Eval vm_compute in map (fun p => w32 (cube_root 36 (N.shiftl p 96) 0)) primes.

(** The initial hash value: the same of the square roots of the first
    eight primes. *)
Definition H0 : list N :=
  Eval vm_compute in map (fun p => w32 (N.sqrt (N.shiftl p 64))) (firstn 8 primes).

(** The bytes of a string: UTF-8 of its code units. *)
Fixpoint bytes (s : string) : list N :=
  match s with
  | EmptyString => []
  | String c r =>
      let n := Str.code c in
      if n <? 128 then n :: bytes r
      else N.lor (N.shiftr n 6) 192 :: N.lor (N.land n 63) 128 :: bytes r
  end.

Definition be64 (n : N) : list N :=
  map (fun i => N.land (N.shiftr n (8 * i)) 255) [7; 6; 5; 4; 3; 2; 1; 0].

(** The message, a 1 bit, zeros up to 56 modulo 64, the bit length. *)
Definition pad (m : list N) : list N :=
  let l := N.of_nat (List.length m) in
  let z := (119 - l mod 64) mod 64 in
  (m ++ 128 :: repeat 0 (N.to_nat z) ++ be64 (8 * l))%list.

Fixpoint words (n : nat) (b : list N) : list N :=
  match n, b with
  | S n', b0 :: b1 :: b2 :: b3 :: r =>
      (N.shiftl b0 24 + N.shiftl b1 16 + N.shiftl b2 8 + b3) :: words n' r
  | _, _ => []
  end.

Fixpoint schedule (n : nat) (w : list N) : list N :=
  match n with
  | O => w
  | S n' =>
      let t := List.length w in
      let at_ i := nth (t - i)%nat w 0 in
      schedule n' (w ++ [add (add (sigma1 (at_ 2%nat)) (at_ 7%nat))
                             (add (sigma0 (at_ 15%nat)) (at_ 16%nat))])%list
  end.

Definition round (st : list N) (kw : N * N) : list N :=
  match st with
  | [a; b; c; d; e; f; g; h] =>
      let t1 := add (add (add h (Sigma1 e)) (add (Ch e f g) (fst kw))) (snd kw) in
      let t2 := add (Sigma0 a) (Maj a b c) in
      [add t1 t2; a; b; c; add d t1; e; f; g]
  | _ => st
  end.

Definition compress (h : list N) (block : list N) : list N :=
  let w := schedule 48 (words 16 block) in
  map (fun p => add (fst p) (snd p)) (combine h (fold_left round (combine K w) h)).

Fixpoint blocks (n : nat) (h : list N) (m : list N) : list N :=
  match n with
  | O => h
  | S n' =>
      match m with
      | [] => h
      | _ => blocks n' (compress h (firstn 64 m)) (skipn 64 m)
      end
  end.

Definition hex8 (x : N) : string :=
  string_of_list_ascii
    (map (fun i => hex_digit (N.land (N.shiftr x (4 * i)) 15)) [7; 6; 5; 4; 3; 2; 1; 0]).

(** [sha256().update(s).digest('hex')]. *)
Definition hex (s : string) : string :=
  let m := pad (bytes s) in
  String.concat "" (map hex8 (blocks (List.length m) H0 m)).

End SHA256.

(** ** The store *)

(** [interface KeyValueCache]: [get] and [set] of a store whose state has
    type [S].  The promises resolve at once; the time of the call is the
    store's [Date.now()]. *)
Class KeyValueCache (S : Type) := {
  kv_get : string -> Z -> S -> option string * S;
  kv_set : string -> string -> option num -> Z -> S -> S
}.

(** Modelled from the spec: the [lru-cache] package (version 4, called as
    [LRU({max, length})]) is not part of the sources.  The store is bounded
    by the total length of its entries and evicts the least recently used
    ones; an entry set with a maximum age is unreachable once that age has
    elapsed; an entry set without one stays until it is evicted. *)
Module LRU.

Record entry := {
  e_key : string;
  e_value : string;
  e_length : Z;
  e_now : Z;
  e_maxAge : Z   (* 0: no maximum age *)
}.

(** [max] is [None] for an unbounded cache; the list is most recent first. *)
Record t := { max : option Z; list_ : list entry }.

(** [LRU({max: size, length: (n, key) => n.length + key.length})]; a
    [max] that is not positive means no bound. *)
Definition create (size : Z) : t :=
  {| max := if 0 <? size then Some size else None; list_ := [] |}.

Definition length_ (value key : string) : Z := Str.len value + Str.len key.

Definition total (l : list entry) : Z := fold_right (fun e n => e_length e + n) 0 l.

Definition over (m : option Z) (n : Z) : bool :=
  match m with Some b => b <? n | None => false end.

Fixpoint find (k : string) (l : list entry) : option entry :=
  match l with
  | [] => None
  | e :: r => if (e_key e =? k)%string then Some e else find k r
  end.

Definition remove (k : string) (l : list entry) : list entry :=
  filter (fun e => negb (e_key e =? k)%string) l.

(** Drops entries from the tail while the total is over the bound. *)
Fixpoint trim_n (n : nat) (m : option Z) (l : list entry) : list entry :=
  match n with
  | O => l
  | S n' => if over m (total l) then trim_n n' m (removelast l) else l
  end.

Definition trim (m : option Z) (l : list entry) : list entry :=
  trim_n (List.length l) m l.

Definition isStale (now : Z) (e : entry) : bool :=
  if e_maxAge e =? 0 then false else e_maxAge e <? now - e_now e.

Definition get (k : string) (now : Z) (c : t) : option string * t :=
  match find k (list_ c) with
  | None => (None, c)
  | Some e =>
      if isStale now e
      then (None, {| max := max c; list_ := remove k (list_ c) |})
      else (Some (e_value e), {| max := max c; list_ := e :: remove k (list_ c) |})
  end.

(** [cache.set(key, value, maxAge)], with [maxAge = 0] when it is not given. *)
Definition set (k v : string) (maxAge now : Z) (c : t) : t :=
  let len := length_ v k in
  let e := {| e_key := k; e_value := v; e_length := len;
              e_now := if maxAge =? 0 then 0 else now; e_maxAge := maxAge |} in
  if over (max c) len then {| max := max c; list_ := remove k (list_ c) |}
  else
    match find k (list_ c) with
    | Some _ =>
        let l := if isStale now e then remove k (list_ c) else e :: remove k (list_ c) in
        {| max := max c; list_ := trim (max c) l |}
    | None => {| max := max c; list_ := trim (max c) (e :: list_ c) |}
    end.

End LRU.

(** [createLRUCache(options)]: [set] passes the maximum age on only when it
    is truthy. *)
Definition createLRUCache (size : Z) : LRU.t := LRU.create size.

(** The default size, 50 MB. *)
Definition default_size : Z := 50000000.

#[export] Instance LRUCache : KeyValueCache LRU.t := {
  kv_get := fun key now c => LRU.get key now c;
  kv_set := fun key value maxAge now c =>
    match maxAge with
    | Some (Fin z) => if negb (z =? 0) then LRU.set key value z now c
                      else LRU.set key value 0 now c
    | _ => LRU.set key value 0 now c
    end
}.

(** ** Requests, responses and handlers *)

(** What a handler does to the response object, and its call of [next]. *)
Inductive event :=
| SetHeader (name value : string)
| Write (chunk : string)
| End
| Next.

Record request := {
  method : string;
  body : jsval;    (* req.body *)
  query : jsval    (* req.query *)
}.

Section Handlers.

Context {S : Type} `{KeyValueCache S}.

(** The state a handler runs in: the store, the clock, the fields of the
    response object and the calls made so far, oldest first. *)
Record world := {
  store : S;
  clock : Z;
  statusCode : Z;
  gqlResponse : jsval;   (* res['gqlResponse'] *)
  trace : list event
}.

(** A computation changes the world and returns or throws; what it did
    before throwing stays done. *)
Definition M (A : Type) := world -> res A * world.

Definition ret {A} (a : A) : M A := fun w => (Ok a, w).

Definition bind {A B} (m : M A) (k : A -> M B) : M B :=
  fun w => match m w with
           | (Ok a, w') => k a w'
           | (Throw e, w') => (Throw e, w')
           end.

Definition lift {A} (r : res A) : M A := fun w => (r, w).

Definition emit (e : event) : M unit :=
  fun w => (Ok tt, {| store := store w; clock := clock w; statusCode := statusCode w;
                      gqlResponse := gqlResponse w; trace := (trace w ++ [e])%list |}).

Definition Date_now : M Z := fun w => (Ok (clock w), w).

Definition get_gqlResponse : M jsval := fun w => (Ok (gqlResponse w), w).

Definition set_gqlResponse (v : jsval) : M unit :=
  fun w => (Ok tt, {| store := store w; clock := clock w; statusCode := statusCode w;
                      gqlResponse := v; trace := trace w |}).

Definition set_statusCode (c : Z) : M unit :=
  fun w => (Ok tt, {| store := store w; clock := clock w; statusCode := c;
                      gqlResponse := gqlResponse w; trace := trace w |}).

(** [await store.get(key)]. *)
Definition store_get (key : string) : M (option string) :=
  fun w => let (v, s) := kv_get key (clock w) (store w) in
           (Ok v, {| store := s; clock := clock w; statusCode := statusCode w;
                     gqlResponse := gqlResponse w; trace := trace w |}).

(** [await store.set(key, value, duration)]. *)
Definition store_set (key value : string) (duration : num) : M unit :=
  fun w => (Ok tt, {| store := kv_set key value (Some duration) (clock w) (store w);
                      clock := clock w; statusCode := statusCode w;
                      gqlResponse := gqlResponse w; trace := trace w |}).

(** [next()] when nothing follows the handler. *)
Definition next_done : M unit := emit Next.

End Handlers.

Arguments world S : clear implicits.
Arguments M S A : clear implicits.

Declare Scope js_scope.
Delimit Scope js_scope with js.
Notation "x <- m ;; k" := (bind m (fun x => k))
  (at level 61, m at next level, right associativity) : js_scope.
Notation "m ;; k" := (bind m (fun _ => k))
  (at level 61, right associativity) : js_scope.
Notation "x <~ r ;; k" := (res_bind r (fun x => k))
  (at level 61, r at next level, right associativity) : js_scope.

Local Open Scope js_scope.

(** ** The middleware *)

(** [req.method === 'POST' ? req.body : req.query]. *)
Definition request_data (req : request) : jsval :=
  if (method req =? "POST")%string then body req else query req.

Definition isPersistedQuery (data : jsval) : res jsval :=
  extensions <~ getProp "extensions" data ;;
  if truthy extensions then
    payload <~ JSON_parse (ToString extensions) ;;
    getProp "persistedQuery" (Some payload)
  else Ok (Some VNull).

(** [query.replace(/\s+/g, '')]: every run of white space is replaced by
    nothing, which removes each white-space character. *)
Fixpoint remove_whitespace (s : string) : string :=
  match s with
  | EmptyString => EmptyString
  | String c r => if is_space c then remove_whitespace r
                  else String c (remove_whitespace r)
  end.

(** Only a string has a [replace] method to call. *)
Definition hashPostBody (query : jsval) : res string :=
  match query with
  | Some (VStr s) => Ok (SHA256.hex (remove_whitespace s))
  | _ => Throw TypeError
  end.

Definition extractCacheKey (query : jsval) : res string :=
  version <~ getProp "version" query ;;
  sha256Hash <~ getProp "sha256Hash" query ;;
  Ok (ToString version ++ "." ++ ToString sha256Hash).

(** [delete] on [null] throws, on a value that is not an object does
    nothing. *)
Definition removeExtensions (obj : jsval) : res string :=
  cachedValue <~ JSON_parse (ToString obj) ;;
  match cachedValue with
  | VNull => Throw TypeError
  | VObj o => Ok (JSON_stringify (VObj (obj_delete "extensions" o)))
  | v => Ok (JSON_stringify v)
  end.

(** The reducer of [storeInCache]: [(min, p) => (p.maxAge < min ? p.maxAge : min)]. *)
Definition min_hint (min : jsval) (p : value) : res jsval :=
  maxAge <~ getProp "maxAge" (Some p) ;;
  Ok (if js_lt maxAge min then maxAge else min).

Fixpoint reduce (f : jsval -> value -> res jsval) (l : list value) (init : jsval)
  : res jsval :=
  match l with
  | [] => Ok init
  | p :: r => acc <~ f init p ;; reduce f r acc
  end.

(** [hints.reduce(..., 60)]; only an array has a [reduce] to call. *)
Definition min_age (hints : jsval) : res jsval :=
  match hints with
  | Some (VArr l) => reduce min_hint l (Some (VNum (Fin 60)))
  | _ => Throw TypeError
  end.

(** [Math.round(duration / 1000 - (Date.now() - at) / 1000)]. *)
Definition duration_left (duration at_ : jsval) (now : Z) : num :=
  match ToNumber duration, ToNumber at_ with
  | Fin d, Fin a =>
      Fin (Math_round (inject_Z d / inject_Z 1000 - inject_Z (now - a) / inject_Z 1000))
  | _, _ => NaN
  end.

Definition not_found_body : string :=
  JSON_stringify (VObj [("errors", VArr [VObj [("message", VStr "PersistedQueryNotFound")]])]).

Section Middleware.

Context {S : Type} `{KeyValueCache S}.

(** A value that is not a string is refused by [Buffer.byteLength]. *)
Definition sendContent (value : jsval) (cacheHit : bool) : M S unit :=
  emit (SetHeader "X-Cache" (if cacheHit then "HIT" else "MISS")) ;;
  emit (SetHeader "Content-Type" "application/json") ;;
  match value with
  | Some (VStr s) =>
      emit (SetHeader "Content-Length" (Z_toString (Str.byteLength s))) ;;
      emit (Write s) ;;
      emit End
  | _ => lift (Throw TypeError)
  end.

(** The two look-ups of [getFromCacheIfAny]; [true] when the handler has
    answered and returns. *)
Definition lookup_cache (req : request) (data pQuery : jsval) : M S bool :=
  post <- (if (method req =? "POST")%string
           then q <- lift (getProp "query" data) ;; ret (truthy q)
           else ret false) ;;
  if post : bool then
    q <- lift (getProp "query" data) ;;
    key <- lift (hashPostBody q) ;;
    value <- store_get key ;;
    match value with
    | Some v =>
        if negb (v =? "")%string then
          entry <- lift (JSON_parse v) ;;
          payload <- lift (getProp "payload" (Some entry)) ;;
          sendContent payload true ;;
          ret true
        else ret false
    | None => ret false
    end
  else if ((method req =? "GET")%string && truthy pQuery)%bool then
    key <- lift (extractCacheKey pQuery) ;;
    value <- store_get key ;;
    match value with
    | Some v =>
        if negb (v =? "")%string then
          entry <- lift (JSON_parse v) ;;
          duration <- lift (getProp "duration" (Some entry)) ;;
          at_ <- lift (getProp "at" (Some entry)) ;;
          payload <- lift (getProp "payload" (Some entry)) ;;
          now <- Date_now ;;
          let durationLeft := num_toString (duration_left duration at_ now) in
          emit (SetHeader "Cache-Control"
                  ("public, max-age=" ++ durationLeft ++ ", s-maxage=" ++ durationLeft)) ;;
          sendContent payload true ;;
          ret true
        else ret false
    | None => ret false
    end
  else ret false.

Definition getFromCacheIfAny (req : request) (next : M S unit) : M S unit :=
  let data := request_data req in
  pQuery <- lift (isPersistedQuery data) ;;
  answered <- lookup_cache req data pQuery ;;
  if answered : bool then ret tt
  else
    notFound <- (if ((method req =? "GET")%string && truthy pQuery)%bool
                 then q <- lift (getProp "query" data) ;; ret (negb (truthy q))
                 else ret false) ;;
    if notFound : bool then sendContent (Some (VStr not_found_body)) false
    else next.

Definition storeInCache (req : request) (next : M S unit) : M S unit :=
  let data := request_data req in
  pQuery <- lift (isPersistedQuery data) ;;
  eligible <- (if ((method req =? "GET")%string && truthy pQuery)%bool then ret true
               else if (method req =? "POST")%string
                    then q <- lift (getProp "query" data) ;; ret (truthy q)
                    else ret false) ;;
  (if eligible : bool then
     gqlData <- get_gqlResponse ;;
     parsed <- lift (JSON_parse (ToString gqlData)) ;;
     extensions <- lift (getProp "extensions" (Some parsed)) ;;
     cacheControl <- (if truthy extensions
                      then lift (getProp "cacheControl" extensions)
                      else ret extensions) ;;
     if truthy cacheControl then
       hints <- lift (getProp "hints" cacheControl) ;;
       minAge <- lift (min_age hints) ;;
       let minAgeInMs := num_mul (ToNumber minAge) (Fin 1000) in
       key <- lift (if (method req =? "GET")%string then extractCacheKey pQuery
                    else q <~ getProp "query" data ;; hashPostBody q) ;;
       payload <- lift (removeExtensions gqlData) ;;
       now <- Date_now ;;
       store_set key
         (JSON_stringify (VObj [("payload", VStr payload);
                                ("at", VNum (Fin now));
                                ("duration", VNum minAgeInMs)]))
         minAgeInMs
     else ret tt
   else ret tt) ;;
  next.

Definition extensionsFilter (next : M S unit) : M S unit :=
  gqlData <- get_gqlResponse ;;
  stripped <- lift (removeExtensions gqlData) ;;
  set_gqlResponse (Some (VStr stripped)) ;;
  next.

Definition graphqlResponseHandler : M S unit :=
  gqlData <- get_gqlResponse ;;
  sendContent gqlData false.

(** What [runHttpQuery] settles with: the response text, an
    [HttpQueryError] with its headers, status and message, or another
    error. *)
Inductive query_result :=
| Resolved (gqlResponse : string)
| QueryError (headers : list (string * string)) (status : Z) (message : string)
| OtherError.

(** The handler [graphqlExpress] returns, given what the engine settles
    with and how long it took.  [next(error)] leaves the chain. *)
Definition graphqlHandler (took : Z) (r : query_result) (next : M S unit) : M S unit :=
  (fun w => (Ok tt, {| store := store w; clock := clock w + took;
                       statusCode := statusCode w; gqlResponse := gqlResponse w;
                       trace := trace w |})) ;;
  match r with
  | Resolved gqlResponse => set_gqlResponse (Some (VStr gqlResponse)) ;; next
  | QueryError headers status message =>
      fold_right (fun h k => emit (SetHeader (fst h) (snd h)) ;; k) (ret tt) headers ;;
      set_statusCode status ;;
      emit (Write message) ;;
      emit End
  | OtherError => ret tt
  end.

(** [app.use('/graphql', ...)] of [server.ts]: the five handlers in a row. *)
Definition graphql_route (req : request) (took : Z) (r : query_result) : M S unit :=
  getFromCacheIfAny req
    (graphqlHandler took r
       (storeInCache req
          (extensionsFilter graphqlResponseHandler))).

End Middleware.

(** A fresh response object on a store at a given time. *)
Definition fresh {S : Type} (s : S) (now : Z) : world S :=
  {| store := s; clock := now; statusCode := 200; gqlResponse := None; trace := [] |}.

(** ** The module cache of [tools/importer.ts] *)

Module Importer.

Section Lazy.

(** What [import(modulePath)] resolves with: a module namespace object,
    which is truthy, or [None] when the import is rejected. *)
Variable module : Type.
Variable import_ : string -> option module.

(** [MODULES], in the order its properties were created, and the calls of
    [import] made so far, oldest first. *)
Record state := { MODULES : list (string * module); imported : list string }.

Definition empty : state := {| MODULES := []; imported := [] |}.

Fixpoint cached (modulePath : string) (l : list (string * module)) : option module :=
  match l with
  | [] => None
  | (path, m) :: r => if (path =? modulePath)%string then Some m else cached modulePath r
  end.

(** [lazyModule(modulePath)]: what it returns ([None] when [import]
    rejects, which the [await] rethrows) and the state it leaves. *)
Definition lazyModule (modulePath : string) (st : state) : option module * state :=
  match cached modulePath (MODULES st) with
  | Some m => (Some m, st)
  | None =>
      match import_ modulePath with
      | Some m =>
          (Some m, {| MODULES := (MODULES st ++ [(modulePath, m)])%list;
                      imported := (imported st ++ [modulePath])%list |})
      | None =>
          (None, {| MODULES := MODULES st;
                    imported := (imported st ++ [modulePath])%list |})
      end
  end.

(** The state after a sequence of calls. *)
Definition after_calls (paths : list string) (st : state) : state :=
  fold_left (fun st path => snd (lazyModule path st)) paths st.



End Lazy.

Arguments MODULES {module} s.
Arguments imported {module} s.
Arguments empty {module}.
Arguments cached {module} modulePath l.

End Importer.

(** ** Vocabulary of the properties *)

(** What may follow a number in a text: anything but a digit. *)
Definition no_digit_ahead (s : string) : Prop :=
  match s with
  | EmptyString => True
  | String c _ => is_digit c = false
  end.

(** The object a sequence of members builds on top of [acc]. *)
Definition build (o acc : props) : props :=
  fold_left (fun a kv => obj_set (fst kv) (snd kv) a) o acc.

(** The properties are in the order their own insertion gives. *)
Definition canonical (o : props) : Prop := build o [] = o.

Definition keys (o : props) : list string := map fst o.

Definition is_index (k : string) : bool :=
  match array_index k with Some _ => true | None => false end.

(** [k] may come before [k']: an index before a larger index or before a
    key that is not one; a key that is not an index only before another. *)
Definition before (k k' : string) : bool :=
  match array_index k, array_index k' with
  | Some i, Some j => (i <? j)%N
  | Some _, None => true
  | None, Some _ => false
  | None, None => true
  end.

Fixpoint key_order (ks : list string) : bool :=
  match ks with
  | [] => true
  | k :: r => forallb (before k) r && key_order r
  end.

(** The enumeration order of an object: indices ascending, then the other
    keys, and no key twice. *)
Definition ordered (o : props) : Prop :=
  key_order (keys o) = true /\ NoDup (keys o).

(** The values [JSON.parse] returns: no [NaN], objects in enumeration
    order. *)
#[warnings="-register-all"] Inductive wf : value -> Prop :=
| wf_null : wf VNull
| wf_bool b : wf (VBool b)
| wf_num z : wf (VNum (Fin z))
| wf_str s : wf (VStr s)
| wf_arr l : Forall wf l -> wf (VArr l)
| wf_obj o : Forall (fun kv => wf (snd kv)) o -> ordered o -> wf (VObj o).

(** How a serialized value begins: not with white space, and not with a
    closing bracket. *)
Definition value_start (s : string) : Prop :=
  match s with
  | EmptyString => False
  | String c _ =>
      is_json_ws c = false /\ (Str.code c =? 93)%N = false
      /\ (Str.code c =? 125)%N = false
  end.

(** Two texts that differ only in white space: one is obtained from the
    other by inserting and deleting white-space characters. *)
Inductive differ_in_whitespace : string -> string -> Prop :=
| dw_nil : differ_in_whitespace "" ""
| dw_same c a b :
    differ_in_whitespace a b -> differ_in_whitespace (String c a) (String c b)
| dw_left c a b :
    is_space c = true -> differ_in_whitespace a b -> differ_in_whitespace (String c a) b
| dw_right c a b :
    is_space c = true -> differ_in_whitespace a b -> differ_in_whitespace a (String c b).

Fixpoint has_whitespace (s : string) : bool :=
  match s with
  | EmptyString => false
  | String c r => is_space c || has_whitespace r
  end.

(** The hints of a list are objects whose [maxAge] are the numbers [ms]. *)
Definition hint_ages (l : list value) (ms : list Z) : Prop :=
  Forall2 (fun p m => getProp "maxAge" (Some p) = Ok (Some (VNum (Fin m)))) l ms.

(** The cache key of a request that [getFromCacheIfAny] looks up and
    [storeInCache] stores under: the descriptor of a GET that carries one,
    the hashed text of a POST that carries a query; [None] when the
    request is neither. *)
Definition fingerprint (req : request) : res (option string) :=
  let data := request_data req in
  pQuery <~ isPersistedQuery data ;;
  if ((method req =? "GET")%string && truthy pQuery)%bool then
    key <~ extractCacheKey pQuery ;; Ok (Some key)
  else if (method req =? "POST")%string then
    q <~ getProp "query" data ;;
    if truthy q then key <~ hashPostBody q ;; Ok (Some key) else Ok None
  else Ok None.

(** The engine's response [text] is the object [o], whose
    [extensions.cacheControl.hints] is the list [l]. *)
Definition carries_hints (text : string) (o : props) (l : list value) : Prop :=
  JSON_parse text = Ok (VObj o)
  /\ exists eo co,
       lookup "extensions" o = Some (VObj eo)
       /\ lookup "cacheControl" eo = Some (VObj co)
       /\ lookup "hints" co = Some (VArr l).

(** The engine's response [text] is the object [o] and has no
    [extensions.cacheControl]. *)
Definition carries_no_hints (text : string) (o : props) : Prop :=
  JSON_parse text = Ok (VObj o)
  /\ (truthy (lookup "extensions" o) = false
      \/ exists ext, lookup "extensions" o = Some ext
                     /\ truthy (Some ext) = true
                     /\ exists cc, getProp "cacheControl" (Some ext) = Ok cc
                                   /\ truthy cc = false).

(** The text of a [CacheEntry]. *)
Definition cache_entry (payload : string) (at_ : Z) (duration : num) : string :=
  JSON_stringify (VObj [("payload", VStr payload); ("at", VNum (Fin at_));
                        ("duration", VNum duration)]).

Definition with_store {S : Type} (w : world S) (s : S) : world S :=
  {| store := s; clock := clock w; statusCode := statusCode w;
     gqlResponse := gqlResponse w; trace := trace w |}.

Definition with_trace {S : Type} (w : world S) (t : list event) : world S :=
  {| store := store w; clock := clock w; statusCode := statusCode w;
     gqlResponse := gqlResponse w; trace := t |}.

(** What [store.get] gave counts as a hit when it is a non-empty string. *)
Definition is_hit (v : option string) : bool :=
  match v with
  | Some s => negb (s =? "")%string
  | None => false
  end.

(** The calls [sendContent] makes on the response. *)
Definition content_events (value : string) (cacheHit : bool) : list event :=
  [SetHeader "X-Cache" (if cacheHit then "HIT" else "MISS");
   SetHeader "Content-Type" "application/json";
   SetHeader "Content-Length" (Z_toString (Str.byteLength value));
   Write value;
   End].

(** A handler that, from [w], calls [next] as the last thing it does, in
    the world [w']. *)
Definition passes_on {S : Type} (h : M S unit -> M S unit) (w w' : world S) : Prop :=
  forall next, h next w = next w'.

(** A handler that, from [w], returns in [w'] whatever [next] is: it does
    not call it. *)
Definition answers {S : Type} (h : M S unit -> M S unit) (w w' : world S) : Prop :=
  forall next, h next w = (Ok tt, w').

(** A property of a parsed value, [undefined] when there is none. *)
Definition field (k : string) (e : value) : jsval :=
  match getProp k (Some e) with Ok x => x | Throw _ => None end.

(** The [Cache-Control] value that advertises [n] seconds. *)
Definition cache_control (n : num) : string :=
  "public, max-age=" ++ num_toString n ++ ", s-maxage=" ++ num_toString n.

(** The calls a cache hit makes on the response. *)
Definition hit_events (req : request) (e : value) (payload : string) (now : Z)
  : list event :=
  ((if (method req =? "GET")%string
    then [SetHeader "Cache-Control"
            (cache_control (duration_left (field "duration" e) (field "at" e) now))]
    else []) ++ content_events payload true)%list.

(** The trace [t'] extends [t] by one response: headers, one [write], one
    [end], and no call of [next]. *)
Definition one_response (t t' : list event) : Prop :=
  exists hs body,
    t' = (t ++ hs ++ [Write body; End])%list
    /\ Forall (fun e => exists n v, e = SetHeader n v) hs.

(** The body of the answer to an unknown persisted query. *)
Definition not_found_text : string :=
  unq "{'errors':[{'message':'PersistedQueryNotFound'}]}".

(** The request with the [extensions] field taken out of its data. *)
Definition drop_extensions (data : jsval) : jsval :=
  match data with
  | Some (VObj o) => Some (VObj (obj_delete "extensions" o))
  | _ => data
  end.

Definition without_extensions (req : request) : request :=
  {| method := method req;
     body := drop_extensions (body req);
     query := drop_extensions (query req) |}.

(** ** Scenarios *)

Definition empty_store : LRU.t := createLRUCache default_size.

Definition books_post : request :=
  {| method := "POST";
     body := Some (VObj [("query", VStr "{ books { title } }")]);
     query := Some (VObj []) |}.

Definition descriptor_text : string :=
  unq "{'persistedQuery':{'version':'1','sha256Hash':'abc'}}".

(** [GET /graphql?extensions={"persistedQuery":{"version":"1","sha256Hash":"abc"}}] *)
Definition descriptor_get : request :=
  {| method := "GET";
     body := None;
     query := Some (VObj [("extensions", VStr descriptor_text)]) |}.

(** A GET whose [extensions] parameter is the given text. *)
Definition extensions_get (text : string) : request :=
  {| method := "GET";
     body := None;
     query := Some (VObj [("extensions", VStr text)]) |}.

Definition plain_get : request :=
  {| method := "GET"; body := None; query := Some (VObj []) |}.

(** A response of the engine with the given hints. *)
Definition books_response (hints : string) : string :=
  unq "{'data':{'books':[{'title':'Jurassic Park'}]},'extensions':{'cacheControl':{'version':1,'hints':"
  ++ unq hints ++ "}}}".

Definition books_data : string :=
  unq "{'data':{'books':[{'title':'Jurassic Park'}]}}".


(** The response object once the engine has resolved with [text]. *)
Definition after_engine {S : Type} (s : S) (now : Z) (text : string) : world S :=
  {| store := s; clock := now; statusCode := 200;
     gqlResponse := Some (VStr text); trace := [] |}.

Definition with_gqlResponse {S : Type} (w : world S) (v : jsval) : world S :=
  {| store := store w; clock := clock w; statusCode := statusCode w;
     gqlResponse := v; trace := trace w |}.

Definition hints_65_30 : string :=
  "[{'path':['books'],'maxAge':65},{'path':['books','title'],'maxAge':30}]".

Definition hints_0 : string := "[{'path':['books'],'maxAge':0}]".

(** The fingerprint of [books_post]. *)
Definition books_key : string :=
  "12debadd62748ce2d77fcc621819250bb0c4a7ac893f68633cd4c59573309784".

(** The object [books_response hints] parses to. *)
Definition books_object (hints : list value) : props :=
  [("data", VObj [("books", VArr [VObj [("title", VStr "Jurassic Park")]])]);
   ("extensions",
    VObj [("cacheControl", VObj [("version", VNum (Fin 1)); ("hints", VArr hints)])])].

Definition hint_values_65_30 : list value :=
  [VObj [("path", VArr [VStr "books"]); ("maxAge", VNum (Fin 65))];
   VObj [("path", VArr [VStr "books"; VStr "title"]); ("maxAge", VNum (Fin 30))]].

(** The world in which the handlers after the engine run: [took]
    milliseconds later, with the engine's text on the response object. *)
Definition engine_done {S : Type} (w : world S) (took : Z) (text : string) : world S :=
  {| store := store w; clock := clock w + took; statusCode := statusCode w;
     gqlResponse := Some (VStr text); trace := trace w |}.

(** The store after [books_post] has gone through the route once, the
    engine taking 5 ms to answer with [text]. *)
Definition store_after_books (text : string) : LRU.t :=
  store (snd (graphql_route books_post 5 (Resolved text) (fresh empty_store 1000))).

(** [pv] reads back the serialization of [x], whatever follows. *)
Definition reads (pv : string -> option (value * string)) (x : value) : Prop :=
  forall rest, no_digit_ahead rest -> pv (JSON_stringify x ++ rest) = Some (x, rest).

(** One member of a serialized object. *)
Definition member (kv : string * value) : string :=
  quote (fst kv) ++ ":" ++ JSON_stringify (snd kv).

(** ** Vocabulary of the store *)

(** The TTL [createLRUCache]'s [set] passes on to the cache: the duration
    when it is truthy, none (0) otherwise. *)
Definition effective_ttl (duration : option num) : Z :=
  match duration with
  | Some (Fin z) => z
  | _ => 0
  end.


Definition lengths_nonneg (l : list LRU.entry) : Prop :=
  Forall (fun e => 0 <= LRU.e_length e) l.

(** ** Vocabulary of the cache keys *)

(** A descriptor as a client sends it. *)
Definition descriptor (version sha256Hash : string) : jsval :=
  Some (VObj [("version", VStr version); ("sha256Hash", VStr sha256Hash)]).

Fixpoint has_dot (s : string) : bool :=
  match s with
  | EmptyString => false
  | String c r => (Str.code c =? 46)%N || has_dot r
  end.

(** ** Vocabulary of the hints *)

(** The [maxAge] of each hint of a list: a number, or [None] when the hint
    has no such field. *)
Definition hint_ages_opt (l : list value) (ms : list (option Z)) : Prop :=
  Forall2 (fun p m =>
             getProp "maxAge" (Some p)
             = Ok (match m with Some z => Some (VNum (Fin z)) | None => None end))
          l ms.

(** The ages that are there. *)
Fixpoint present (ms : list (option Z)) : list Z :=
  match ms with
  | [] => []
  | Some z :: r => z :: present r
  | None :: r => present r
  end.

(** The calls that set the headers of an engine error. *)
Definition header_events (headers : list (string * string)) : list event :=
  map (fun h => SetHeader (fst h) (snd h)) headers.

(** The world after the engine has failed with a status. *)
Definition engine_failed {S : Type} (w : world S) (took : Z) (status : Z)
    (events : list event) : world S :=
  {| store := store w; clock := clock w + took; statusCode := status;
     gqlResponse := gqlResponse w; trace := (trace w ++ events)%list |}.


(** [descriptor_get] with the query text as well. *)
Definition descriptor_get_with_query : request :=
  {| method := "GET";
     body := None;
     query := Some (VObj [("query", VStr "{ books { title } }");
                          ("extensions", VStr descriptor_text)]) |}.

(** The store after a request has gone through the route once on an empty
    store at time 1000, the engine taking 5 ms to answer with [text]. *)
Definition store_after (req : request) (text : string) : LRU.t :=
  store (snd (graphql_route req 5 (Resolved text) (fresh empty_store 1000))).

(** The object [books_response hints_0] parses to. *)
Definition hint_values_0 : list value :=
  [VObj [("path", VArr [VStr "books"]); ("maxAge", VNum (Fin 0))]].

(** ** Vocabulary of the outcomes *)

Definition is_header (e : event) : Prop := exists n v, e = SetHeader n v.

(** Nothing of the response object but its trace has changed, nor the
    clock. *)
Definition same_fields {S : Type} (w w' : world S) : Prop :=
  statusCode w' = statusCode w /\ gqlResponse w' = gqlResponse w
  /\ clock w' = clock w.

Section Outcomes.

Context {S : Type} `{KeyValueCache S}.

(** [getFromCacheIfAny] up to its call of [next]: [true] when it has
    answered. *)
Definition gate (req : request) : M S bool :=
  let data := request_data req in
  pQuery <- lift (isPersistedQuery data) ;;
  answered <- lookup_cache req data pQuery ;;
  if answered : bool then ret true
  else
    notFound <- (if ((method req =? "GET")%string && truthy pQuery)%bool
                 then q <- lift (getProp "query" data) ;; ret (negb (truthy q))
                 else ret false) ;;
    if notFound : bool
    then sendContent (Some (VStr not_found_body)) false ;; ret true
    else ret false.

(** A computation that calls nothing on the response. *)
Definition silent {A : Type} (m : M S A) : Prop :=
  forall w, same_fields w (snd (m w)) /\ trace (snd (m w)) = trace w.

(** A computation that sets headers and then either sends one body and
    returns [true], or throws. *)
Definition sends {A : Type} (m : M S A) : Prop :=
  forall w,
    same_fields w (snd (m w))
    /\ exists hs,
         Forall is_header hs
         /\ match fst (m w) with
            | Ok _ => exists body, trace (snd (m w)) = (trace w ++ hs ++ [Write body; End])%list
            | Throw _ => trace (snd (m w)) = (trace w ++ hs)%list
            end.

(** A computation that returns [true] having sent one response, returns
    [false] having called nothing, or throws having at most set headers. *)
Definition gate_like (m : M S bool) : Prop :=
  forall w,
    same_fields w (snd (m w))
    /\ match fst (m w) with
       | Ok true => one_response (trace w) (trace (snd (m w)))
       | Ok false => trace (snd (m w)) = trace w
       | Throw _ => exists hs, Forall is_header hs
                               /\ trace (snd (m w)) = (trace w ++ hs)%list
       end.

(** A computation that throws having changed nothing, returns having
    changed nothing, or returns after one [set] on the store under the key
    [fp]. *)
Definition stores_at_most (fp : res (option string)) (m : M S unit) : Prop :=
  forall w,
    (exists e, m w = (Throw e, w))
    \/ m w = (Ok tt, w)
    \/ (exists key value d,
           fp = Ok (Some key)
           /\ m w = (Ok tt, with_store w (kv_set key value (Some d) (clock w) (store w)))).

End Outcomes.

(** A store that holds, under the key of [books_post], a value that
    [storeInCache] did not write. *)
Definition foreign_store (value : string) : LRU.t :=
  kv_set books_key value None 1005 empty_store.


(** * Properties *)

(** ** Strings and digits *)

Lemma append_nil_r (s : string) : s ++ "" = s.
Proof. induction s as [|c s IH]; simpl; [reflexivity | now rewrite IH]. Qed.

Lemma append_assoc (a b c : string) : (a ++ b) ++ c = a ++ (b ++ c).
Proof. induction a as [|x a IH]; simpl; [reflexivity | now rewrite IH]. Qed.

Lemma length_append (a b : string) :
  String.length (a ++ b) = (String.length a + String.length b)%nat.
Proof. induction a as [|x a IH]; simpl; [reflexivity | now rewrite IH]. Qed.

Lemma length_cons (c : ascii) (s : string) :
  String.length (String c s) = Datatypes.S (String.length s).
Proof. reflexivity. Qed.

Lemma read_digits_stop (s : string) :
  no_digit_ahead s -> read_digits s = (Decimal.Nil, s).
Proof.
  destruct s as [|c r]; simpl; [reflexivity | intros ->; reflexivity].
Qed.

Lemma read_digits_uint (d : Decimal.uint) (rest : string) :
  no_digit_ahead rest ->
  read_digits (NilEmpty.string_of_uint d ++ rest) = (d, rest).
Proof.
  intros Hr.
  induction d as [|d IH|d IH|d IH|d IH|d IH|d IH|d IH|d IH|d IH|d IH]; simpl;
    [ now apply read_digits_stop | now rewrite IH .. ].
Qed.

Lemma to_uint_shape (p : positive) :
  match Pos.to_uint p with
  | Decimal.Nil | Decimal.D0 _ => False
  | _ => True
  end.
Proof.
  pose proof (DecimalPos.Unsigned.to_of (Pos.to_uint p)) as H.
  rewrite DecimalPos.Unsigned.of_to in H. simpl in H.
  pose proof (DecimalPos.Unsigned.to_uint_nonzero p) as Hz.
  pose proof (DecimalPos.Unsigned.to_uint_nonnil p) as Hn.
  destruct (Pos.to_uint p) as [|u|u|u|u|u|u|u|u|u|u]; try exact I.
  - now apply Hn.
  - rewrite DecimalFacts.unorm_D0 in H. unfold Decimal.unorm in H.
    pose proof (DecimalFacts.nzhead_nonzero u) as Hh.
    destruct (Decimal.nzhead u) as [|u0|u0|u0|u0|u0|u0|u0|u0|u0|u0];
      try discriminate H.
    + apply Hz. exact H.
    + apply (Hh u0). reflexivity.
Qed.

Lemma parse_number_toString (z : Z) (rest : string) :
  no_digit_ahead rest ->
  parse_number (Z_toString z ++ rest) = Some (z, rest).
Proof.
  intros Hr. unfold Z_toString, parse_number.
  destruct z as [|p|p]; simpl Z.to_int.
  - simpl. now rewrite read_digits_stop.
  - pose proof (to_uint_shape p) as Hs.
    pose proof (DecimalPos.Unsigned.of_to p) as Hof.
    assert (Hstr : NilZero.string_of_int (Decimal.Pos (Pos.to_uint p))
                   = NilEmpty.string_of_uint (Pos.to_uint p)).
    { simpl. destruct (Pos.to_uint p); [destruct Hs | reflexivity ..]. }
    rewrite Hstr.
    assert (Hhd : match NilEmpty.string_of_uint (Pos.to_uint p) ++ rest with
                  | String c r => (Str.code c =? 45)%N = false
                  | EmptyString => True
                  end).
    { destruct (Pos.to_uint p); try reflexivity. destruct Hs. }
    destruct (NilEmpty.string_of_uint (Pos.to_uint p) ++ rest) as [|c r] eqn:E.
    + rewrite <- E, read_digits_uint by assumption.
      destruct (Pos.to_uint p); try destruct Hs;
        unfold N.of_uint; rewrite Hof; reflexivity.
    + rewrite Hhd, <- E, read_digits_uint by assumption.
      destruct (Pos.to_uint p); try destruct Hs;
        unfold N.of_uint; rewrite Hof; reflexivity.
  - pose proof (to_uint_shape p) as Hs.
    pose proof (DecimalPos.Unsigned.of_to p) as Hof.
    assert (Hstr : NilZero.string_of_int (Decimal.Neg (Pos.to_uint p))
                   = String "-" (NilEmpty.string_of_uint (Pos.to_uint p))).
    { simpl. destruct (Pos.to_uint p); [destruct Hs | reflexivity ..]. }
    rewrite Hstr. simpl append. cbv iota beta.
    change (Str.code "-" =? 45)%N with true. cbv iota.
    rewrite read_digits_uint by assumption.
    destruct (Pos.to_uint p); try destruct Hs;
      unfold N.of_uint; rewrite Hof; reflexivity.
Qed.

(** ** String literals *)

Ltac each_char c := destruct c as [[] [] [] [] [] [] [] []].

Lemma parse_chars_escape_char (c : ascii) (t : string) :
  parse_chars (escape_char c ++ t)
  = match parse_chars t with
    | Some (s, r) => Some (String c s, r)
    | None => None
    end.
Proof. each_char c; reflexivity. Qed.

Lemma parse_chars_escape (s rest : string) :
  parse_chars (escape s ++ String dquote rest) = Some (s, rest).
Proof.
  induction s as [|c s IH]; simpl.
  - reflexivity.
  - rewrite append_assoc, parse_chars_escape_char, IH. reflexivity.
Qed.

Lemma parse_chars_quote (s rest : string) :
  exists r, quote s ++ rest = String dquote r /\ parse_chars r = Some (s, rest).
Proof.
  exists (escape s ++ String dquote rest). split.
  - unfold quote. simpl. now rewrite append_assoc.
  - apply parse_chars_escape.
Qed.

(** ** Values that survive a round trip *)

Lemma Z_toString_start (z : Z) :
  match Z_toString z with
  | EmptyString => False
  | String c _ => (is_digit c || (Str.code c =? 45)%N)%bool = true
  end.
Proof.
  unfold Z_toString. destruct z as [|p|p]; simpl; try reflexivity.
  pose proof (to_uint_shape p) as Hs.
  destruct (Pos.to_uint p); try destruct Hs; reflexivity.
Qed.

Lemma stringify_start (v : value) : value_start (JSON_stringify v).
Proof.
  destruct v as [|[]|[z|]|s|l|o]; simpl; try (repeat split; reflexivity).
  pose proof (Z_toString_start z) as H.
  destruct (Z_toString z) as [|c r]; [destruct H|].
  each_char c; simpl in H; try discriminate H; repeat split; reflexivity.
Qed.

Lemma skip_ws_start (s : string) : value_start s -> skip_ws s = s.
Proof.
  destruct s as [|c r]; simpl; [reflexivity | intros [-> _]; reflexivity].
Qed.

Lemma value_start_app (s t : string) : value_start s -> value_start (s ++ t).
Proof. destruct s; simpl; [intros [] | trivial]. Qed.

(** ** Objects in enumeration order *)

Lemma lookup_none (k : string) (o : props) :
  lookup k o = None <-> ~ In k (keys o).
Proof.
  induction o as [|[k' v] o IH]; simpl.
  - tauto.
  - destruct (String.eqb_spec k' k) as [->|Hne].
    + split; [discriminate | intros Hn; exfalso; apply Hn; now left].
    + rewrite IH. split; [intros Hn [Heq|Hin]; [now apply Hne | now apply Hn]
                         | intros Hn Hin; apply Hn; now right].
Qed.

Lemma array_index_canon (k : string) (i : N) :
  array_index k = Some i -> k = NilZero.string_of_uint (N.to_uint i).
Proof.
  unfold array_index. destruct (read_digits k) as [d rest].
  destruct d, rest; try discriminate;
    match goal with
    | |- (if ?b then _ else _) = _ -> _ =>
        destruct b eqn:E; [|discriminate]; intros [= <-];
        apply andb_prop in E; destruct E as [E _];
        apply String.eqb_eq in E; symmetry; exact E
    end.
Qed.

Lemma array_index_inj (k k' : string) (i : N) :
  array_index k = Some i -> array_index k' = Some i -> k = k'.
Proof.
  intros H1 H2. apply array_index_canon in H1, H2. congruence.
Qed.

Lemma keys_app (a b : props) : keys (a ++ b)%list = (keys a ++ keys b)%list.
Proof. apply map_app. Qed.

Lemma key_order_app (a b : list string) :
  key_order (a ++ b)%list = true ->
  key_order a = true /\ key_order b = true
  /\ forall x y, In x a -> In y b -> before x y = true.
Proof.
  induction a as [|k a IH]; simpl; intros Ho.
  - repeat split; [exact Ho | intros x y []].
  - apply andb_prop in Ho. destruct Ho as [Hk Hr].
    rewrite forallb_app in Hk. apply andb_prop in Hk. destruct Hk as [Hka Hkb].
    destruct (IH Hr) as (Ha & Hb & Hab).
    rewrite Hka, Ha. repeat split; [exact Hb|].
    intros x y [<-|Hx] Hy; [|now apply Hab].
    rewrite forallb_forall in Hkb. now apply Hkb.
Qed.

Lemma ordered_prefix (a b : props) : ordered (a ++ b)%list -> ordered a.
Proof.
  unfold ordered. rewrite keys_app. intros [Ho Hn]. split.
  - now apply key_order_app in Ho.
  - now apply NoDup_app_remove_r in Hn.
Qed.

Lemma insert_index_last (i : N) (k : string) (v : value) (o : props) :
  (forall x, In x (keys o) -> before x k = true) ->
  array_index k = Some i ->
  insert_index i k v o = (o ++ [(k, v)])%list.
Proof.
  intros Hb Hk. induction o as [|[k' v'] o IH]; simpl; [reflexivity|].
  assert (Hk' : before k' k = true) by (apply Hb; now left).
  unfold before in Hk'. rewrite Hk in Hk'.
  destruct (array_index k') as [j|]; [|discriminate].
  rewrite Hk'. rewrite IH; [reflexivity|].
  intros x Hx. apply Hb. now right.
Qed.

Lemma obj_set_last (k : string) (v : value) (o : props) :
  ordered (o ++ [(k, v)])%list -> obj_set k v o = (o ++ [(k, v)])%list.
Proof.
  intros [Ho Hn]. rewrite keys_app in Ho, Hn. simpl in Ho, Hn.
  unfold obj_set.
  assert (Hl : lookup k o = None).
  { apply lookup_none. intros Hin.
    apply NoDup_remove_2 in Hn. apply Hn. rewrite List.app_nil_r. exact Hin. }
  rewrite Hl. destruct (array_index k) as [i|] eqn:Hk; [|reflexivity].
  apply insert_index_last; [|exact Hk].
  apply key_order_app in Ho. destruct Ho as (_ & _ & Hab).
  intros x Hx. apply Hab; [exact Hx | now left].
Qed.

Lemma build_app (a b acc : props) : build (a ++ b)%list acc = build b (build a acc).
Proof. apply fold_left_app. Qed.

Lemma ordered_canonical (o : props) : ordered o -> canonical o.
Proof.
  unfold canonical. induction o as [|[k v] o IH] using rev_ind; intros Ho.
  - reflexivity.
  - rewrite build_app, IH by (eapply ordered_prefix; exact Ho).
    simpl. now apply obj_set_last.
Qed.

Lemma before_trans (a b c : string) :
  before a b = true -> before b c = true -> before a c = true.
Proof.
  unfold before.
  destruct (array_index a), (array_index b), (array_index c);
    try reflexivity; try discriminate.
  rewrite !N.ltb_lt. lia.
Qed.

Lemma keys_replace (k : string) (v : value) (o : props) :
  keys (replace_prop k v o) = keys o.
Proof.
  induction o as [|[k' v'] o IH]; simpl; [reflexivity|].
  destruct (k' =? k)%string; simpl; [reflexivity | now rewrite IH].
Qed.

Lemma key_order_snoc (ks : list string) (k : string) :
  key_order ks = true -> array_index k = None -> key_order (ks ++ [k])%list = true.
Proof.
  intros Ho Hk. induction ks as [|x r IH]; simpl in *; [reflexivity|].
  apply andb_prop in Ho. destruct Ho as [Hx Hr].
  rewrite forallb_app, Hx, IH by exact Hr. simpl.
  unfold before. rewrite Hk. now destruct (array_index x).
Qed.

Lemma insert_index_keys (i : N) (k : string) (v : value) (o : props) (x : string) :
  In x (keys (insert_index i k v o)) <-> x = k \/ In x (keys o).
Proof.
  induction o as [|[k' v'] o IH]; simpl.
  - intuition congruence.
  - destruct (array_index k') as [j|]; [destruct (j <? i)%N|]; simpl;
      rewrite ?IH; intuition congruence.
Qed.

Lemma insert_index_ordered (i : N) (k : string) (v : value) (o : props) :
  array_index k = Some i -> ~ In k (keys o) -> ordered o ->
  ordered (insert_index i k v o).
Proof.
  intros Hk. induction o as [|[k' v'] o IH]; intros Hnin [Ho Hn].
  - split; [reflexivity | repeat constructor; intros []].
  - simpl in Ho, Hn, Hnin. apply andb_prop in Ho. destruct Ho as [Hk' Hr].
    inversion_clear Hn as [|? ? Hn1 Hn2].
    assert (Hfront : before k k' = true -> ordered ((k, v) :: (k', v') :: o)).
    { intros Hb. split.
      - simpl. rewrite Hb, Hk', Hr. simpl. rewrite andb_true_r.
        apply forallb_forall. intros y Hy.
        rewrite forallb_forall in Hk'. eapply before_trans; [exact Hb | now apply Hk'].
      - simpl. constructor; [exact Hnin | now constructor]. }
    simpl. destruct (array_index k') as [j|] eqn:Hj.
    + destruct (j <? i)%N eqn:Hlt.
      * destruct IH as [Ho' Hn']; [tauto | now split |].
        split; simpl.
        -- rewrite Ho', andb_true_r. apply forallb_forall. intros y Hy.
           apply insert_index_keys in Hy. destruct Hy as [->|Hy].
           ++ unfold before. now rewrite Hj, Hk.
           ++ rewrite forallb_forall in Hk'. now apply Hk'.
        -- constructor; [|exact Hn'].
           rewrite insert_index_keys. intros [->|Hin]; tauto.
      * apply Hfront. unfold before. rewrite Hk, Hj.
        apply N.ltb_lt. apply N.ltb_ge in Hlt.
        assert (i <> j).
        { intros ->. apply Hnin. left. eapply array_index_inj; eassumption. }
        lia.
    + apply Hfront. unfold before. now rewrite Hk, Hj.
Qed.

Lemma obj_set_ordered (k : string) (v : value) (o : props) :
  ordered o -> ordered (obj_set k v o).
Proof.
  intros Ho. unfold obj_set. destruct (lookup k o) eqn:Hl.
  - unfold ordered. now rewrite keys_replace.
  - apply lookup_none in Hl. destruct (array_index k) as [i|] eqn:Hk.
    + now apply insert_index_ordered.
    + destruct Ho as [Ho Hn]. split; rewrite keys_app; simpl.
      * now apply key_order_snoc.
      * apply NoDup_app; [exact Hn | repeat constructor; intros [] |].
        intros x Hx [<-|[]]. now apply Hl.
Qed.

Lemma keys_delete (k : string) (o : props) :
  keys (obj_delete k o) = filter (fun x => negb (x =? k)%string) (keys o).
Proof.
  induction o as [|[k' v'] o IH]; simpl; [reflexivity|].
  destruct (k' =? k)%string; simpl; now rewrite IH.
Qed.

Lemma key_order_filter (p : string -> bool) (ks : list string) :
  key_order ks = true -> key_order (filter p ks) = true.
Proof.
  induction ks as [|x r IH]; simpl; [reflexivity|]. intros Ho.
  apply andb_prop in Ho. destruct Ho as [Hx Hr].
  destruct (p x); simpl; [|now apply IH].
  rewrite IH, andb_true_r by exact Hr.
  apply forallb_forall. intros y Hy. apply filter_In in Hy.
  rewrite forallb_forall in Hx. now apply Hx.
Qed.

Lemma obj_delete_ordered (k : string) (o : props) :
  ordered o -> ordered (obj_delete k o).
Proof.
  intros [Ho Hn]. unfold ordered. rewrite keys_delete. split.
  - now apply key_order_filter.
  - now apply NoDup_filter.
Qed.

(** ** Parsing what was serialized *)

Section Loops.

Variable pv : string -> option (value * string).

Lemma parse_elems_join (l : list value) :
  l <> [] -> Forall (reads pv) l ->
  forall fuel acc rest, (List.length l <= fuel)%nat ->
    parse_elems pv fuel (join "," (map JSON_stringify l) ++ String "]" rest) acc
    = Some ((rev acc ++ l)%list, rest).
Proof.
  induction l as [|x [|y r] IH]; intros Hne Hall fuel acc rest Hf.
  - now destruct Hne.
  - destruct fuel as [|f]; [simpl in Hf; lia|].
    inversion_clear Hall as [|? ? Hx _].
    simpl. rewrite Hx by reflexivity. simpl. reflexivity.
  - destruct fuel as [|f]; [simpl in Hf; lia|].
    inversion_clear Hall as [|? ? Hx Hr].
    change (join "," (map JSON_stringify (x :: y :: r)))
      with (JSON_stringify x ++ String "," (join "," (map JSON_stringify (y :: r)))).
    rewrite append_assoc. simpl parse_elems.
    rewrite Hx by reflexivity. simpl.
    rewrite IH; [| discriminate | assumption | simpl in Hf |- *; lia].
    simpl. now rewrite <- app_assoc.
Qed.

Lemma parse_members_step (k : string) (v : value) (t : string) (f : nat) (acc : props) :
  reads pv v ->
  forall c r, t = String c r -> is_json_ws c = false -> is_digit c = false ->
  parse_members pv (S f) (member (k, v) ++ t) acc
  = if (Str.code c =? 44)%N then parse_members pv f r (obj_set k v acc)
    else if (Str.code c =? 125)%N then Some (obj_set k v acc, r)
    else None.
Proof.
  intros Hv c r -> Hc Hd. unfold member. simpl fst. simpl snd.
  rewrite append_assoc.
  destruct (parse_chars_quote k ((":" ++ JSON_stringify v) ++ String c r))
    as (q & -> & Hq).
  simpl parse_members. change (Str.code dquote =? 34)%N with true. cbv iota.
  rewrite Hq. simpl append.
  change (skip_ws (String ":" ?x)) with (String ":" x).
  cbv iota. change (Str.code ":" =? 58)%N with true. cbv iota.
  rewrite Hv.
  - simpl skip_ws. rewrite Hc. reflexivity.
  - exact Hd.
Qed.

Lemma parse_members_join (o : props) :
  o <> [] -> Forall (fun kv => reads pv (snd kv)) o ->
  forall fuel acc rest, (List.length o <= fuel)%nat ->
    parse_members pv fuel (join "," (map member o) ++ String "}" rest) acc
    = Some (build o acc, rest).
Proof.
  induction o as [|[k v] [|y r] IH]; intros Hne Hall fuel acc rest Hf.
  - now destruct Hne.
  - destruct fuel as [|f]; [simpl in Hf; lia|].
    inversion_clear Hall as [|? ? Hx _].
    simpl join. erewrite parse_members_step; [| exact Hx | reflexivity | reflexivity | reflexivity].
    reflexivity.
  - destruct fuel as [|f]; [simpl in Hf; lia|].
    inversion_clear Hall as [|? ? Hx Hr].
    change (join "," (map member ((k, v) :: y :: r)))
      with (member (k, v) ++ String "," (join "," (map member (y :: r)))).
    rewrite append_assoc.
    erewrite parse_members_step; [| exact Hx | reflexivity | reflexivity | reflexivity].
    simpl. rewrite IH; [| discriminate | assumption | simpl in Hf |- *; lia].
    reflexivity.
Qed.

End Loops.

Lemma join_cons (sep x : string) (l : list string) :
  l <> [] -> join sep (x :: l) = x ++ sep ++ join sep l.
Proof. destruct l; [now intros [] | reflexivity]. Qed.

Lemma join_length_in (sep s : string) (l : list string) :
  In s l -> (String.length s <= String.length (join sep l))%nat.
Proof.
  induction l as [|x [|y r] IH]; intros Hin.
  - destruct Hin.
  - destruct Hin as [->|[]]. simpl. lia.
  - rewrite join_cons by discriminate. rewrite !length_append.
    destruct Hin as [->|Hin]; [lia|]. specialize (IH Hin). lia.
Qed.

Lemma join_length_count (sep : string) (l : list string) :
  Forall (fun s => (1 <= String.length s)%nat) l ->
  (List.length l <= String.length (join sep l))%nat.
Proof.
  induction l as [|x [|y r] IH]; intros Hall.
  - simpl. lia.
  - inversion_clear Hall. simpl. lia.
  - inversion_clear Hall as [|? ? Hx Hr]. rewrite join_cons by discriminate.
    rewrite !length_append. specialize (IH Hr). simpl List.length in *. lia.
Qed.

Lemma value_start_length (s : string) : value_start s -> (1 <= String.length s)%nat.
Proof. destruct s; simpl; [intros [] | lia]. Qed.

Lemma join_start (sep x : string) (l : list string) :
  value_start x -> value_start (join sep (x :: l)).
Proof.
  intros Hx. destruct l; [exact Hx|].
  rewrite join_cons by discriminate. now apply value_start_app.
Qed.

Lemma parse_val_number (f : nat) (c : ascii) (r : string) :
  (is_digit c || (Str.code c =? 45)%N)%bool = true ->
  parse_val (S f) (String c r)
  = match parse_number (String c r) with
    | Some (z, rest) => Some (VNum (Fin z), rest)
    | None => None
    end.
Proof. intros H. each_char c; simpl in H; try discriminate H; reflexivity. Qed.

Lemma parse_val_array (f : nat) (t : string) :
  value_start t ->
  parse_val (S f) (String "[" t)
  = match parse_elems (parse_val f) f t [] with
    | Some (l, rest) => Some (VArr l, rest)
    | None => None
    end.
Proof.
  destruct t as [|c r]; simpl; [intros [] | intros (Hw & Hb & _)].
  rewrite Hw, Hb. reflexivity.
Qed.

Lemma parse_val_object (f : nat) (t : string) :
  value_start t ->
  parse_val (S f) (String "{" t)
  = match parse_members (parse_val f) f t [] with
    | Some (o, rest) => Some (VObj o, rest)
    | None => None
    end.
Proof.
  destruct t as [|c r]; simpl; [intros [] | intros (Hw & _ & Hb)].
  rewrite Hw, Hb. reflexivity.
Qed.

Lemma quote_start (s : string) : value_start (quote s).
Proof. repeat split; reflexivity. Qed.

Lemma member_start (kv : string * value) : value_start (member kv).
Proof. unfold member. apply value_start_app, quote_start. Qed.

Lemma stringify_arr (l : list value) :
  JSON_stringify (VArr l) = String "[" (join "," (map JSON_stringify l) ++ "]").
Proof. reflexivity. Qed.

Lemma stringify_obj (o : props) :
  JSON_stringify (VObj o) = String "{" (join "," (map member o) ++ "}").
Proof. reflexivity. Qed.

Lemma parse_val_stringify (v : value) :
  wf v ->
  forall fuel rest,
    (String.length (JSON_stringify v) <= fuel)%nat -> no_digit_ahead rest ->
    parse_val fuel (JSON_stringify v ++ rest) = Some (v, rest).
Proof.
  induction v as [|b|n|s|l IH|o IH] using value_ind';
    intros Hwf fuel rest Hf Hr.
  - destruct fuel as [|f]; [simpl in Hf; lia | reflexivity].
  - destruct fuel as [|f]; [destruct b; simpl in Hf; lia | destruct b; reflexivity].
  - inversion Hwf as [| |z Hz| | |]; subst n. simpl JSON_stringify in *.
    pose proof (Z_toString_start z) as Hs.
    destruct (Z_toString z) as [|c r] eqn:E; [destruct Hs|].
    destruct fuel as [|f]; [simpl in Hf; lia|].
    change (String c r ++ rest) with (String c (r ++ rest)).
    rewrite parse_val_number by exact Hs.
    change (String c (r ++ rest)) with (String c r ++ rest).
    rewrite <- E, parse_number_toString by exact Hr. reflexivity.
  - destruct fuel as [|f]; [simpl in Hf; lia|].
    simpl JSON_stringify.
    destruct (parse_chars_quote s rest) as (q & -> & Hq).
    simpl. change (Str.code dquote =? 34)%N with true. cbv iota.
    now rewrite Hq.
  - inversion Hwf as [| | | |l' Hl|]; subst l'.
    destruct fuel as [|f]; [simpl in Hf; lia|].
    destruct l as [|x l]; [reflexivity|].
    rewrite stringify_arr in *.
    change (String "[" ?a ++ ?b) with (String "[" (a ++ b)).
    rewrite append_assoc.
    rewrite length_cons, length_append in Hf.
    rewrite parse_val_array
      by (apply value_start_app; rewrite map_cons; apply join_start, stringify_start).
    change ("]" ++ rest) with (String "]" rest).
    rewrite parse_elems_join; [reflexivity | discriminate | |].
    + rewrite Forall_forall in *. intros y Hy rest' Hr'.
      apply IH; [exact Hy | now apply Hl | | exact Hr'].
      pose proof (join_length_in "," (JSON_stringify y) (map JSON_stringify (x :: l))
                    (in_map _ _ _ Hy)) as Hj.
      lia.
    + pose proof (join_length_count "," (map JSON_stringify (x :: l))) as Hc.
      rewrite length_map in Hc. enough (List.length (x :: l)
        <= String.length (join "," (map JSON_stringify (x :: l))))%nat by lia.
      apply Hc. rewrite Forall_forall. intros s Hs.
      apply in_map_iff in Hs. destruct Hs as (y & <- & _).
      apply value_start_length, stringify_start.
  - inversion Hwf as [| | | | |o' Ho Hc]; subst o'.
    destruct fuel as [|f]; [simpl in Hf; lia|].
    destruct o as [|x o]; [reflexivity|].
    rewrite stringify_obj in *.
    change (String "{" ?a ++ ?b) with (String "{" (a ++ b)).
    rewrite append_assoc.
    rewrite length_cons, length_append in Hf.
    rewrite parse_val_object
      by (apply value_start_app; rewrite map_cons; apply join_start, member_start).
    change ("}" ++ rest) with (String "}" rest).
    rewrite parse_members_join;
      [now rewrite (ordered_canonical _ Hc) | discriminate | |].
    + rewrite Forall_forall in *. intros y Hy rest' Hr'.
      apply IH; [exact Hy | now apply Ho | | exact Hr'].
      pose proof (join_length_in "," (member y) (map member (x :: o))
                    (in_map _ _ _ Hy)) as Hj.
      unfold member at 1 in Hj. rewrite !length_append in Hj. lia.
    + pose proof (join_length_count "," (map member (x :: o))) as Hn.
      rewrite length_map in Hn. enough (List.length (x :: o)
        <= String.length (join "," (map member (x :: o))))%nat by lia.
      apply Hn. rewrite Forall_forall. intros s Hs.
      apply in_map_iff in Hs. destruct Hs as (y & <- & _).
      apply value_start_length, member_start.
Qed.

Theorem JSON_parse_stringify (v : value) :
  wf v -> JSON_parse (JSON_stringify v) = Ok v.
Proof.
  intros Hwf. unfold JSON_parse.
  rewrite <- (append_nil_r (JSON_stringify v)) at 2.
  rewrite (parse_val_stringify v Hwf) by (simpl; auto). reflexivity.
Qed.

(** ** What the parser returns is in enumeration order *)

Lemma obj_set_values (P : value -> Prop) (k : string) (v : value) (o : props) :
  P v -> Forall (fun kv => P (snd kv)) o ->
  Forall (fun kv => P (snd kv)) (obj_set k v o).
Proof.
  intros Hv Ho. unfold obj_set. destruct (lookup k o).
  - induction Ho as [|[k' v'] r Hx Hr IH]; simpl; [constructor|].
    destruct (k' =? k)%string; constructor; assumption.
  - destruct (array_index k) as [i|].
    + induction Ho as [|[k' v'] r Hx Hr IH]; simpl; [now repeat constructor|].
      destruct (array_index k') as [j|]; [destruct (j <? i)%N|];
        repeat (constructor; try assumption).
    + apply Forall_app. split; [assumption | now repeat constructor].
Qed.

Section LoopsWf.

Variable pv : string -> option (value * string).
Hypothesis pv_wf : forall s v r, pv s = Some (v, r) -> wf v.

Lemma parse_elems_wf (fuel : nat) :
  forall s acc l r, Forall wf acc ->
    parse_elems pv fuel s acc = Some (l, r) -> Forall wf l.
Proof.
  induction fuel as [|f IH]; intros s acc l r Hacc Hp; simpl in Hp; [discriminate|].
  destruct (pv s) as [[v t]|] eqn:Hv; [|discriminate].
  apply pv_wf in Hv.
  destruct (skip_ws t) as [|c t']; [discriminate|].
  destruct (Str.code c =? 44)%N.
  - eapply IH; [|exact Hp]. now constructor.
  - destruct (Str.code c =? 93)%N; [|discriminate].
    injection Hp as <- _. change (Forall wf (rev (v :: acc))).
    apply Forall_rev. now constructor.
Qed.

Lemma parse_members_wf (fuel : nat) :
  forall s acc o r, Forall (fun kv => wf (snd kv)) acc -> ordered acc ->
    parse_members pv fuel s acc = Some (o, r) ->
    Forall (fun kv => wf (snd kv)) o /\ ordered o.
Proof.
  induction fuel as [|f IH]; intros s acc o r Hacc Hord Hp; simpl in Hp;
    [discriminate|].
  destruct (skip_ws s) as [|c t]; [discriminate|].
  destruct (Str.code c =? 34)%N; [|discriminate].
  destruct (parse_chars t) as [[k t1]|]; [|discriminate].
  destruct (skip_ws t1) as [|c1 t2]; [discriminate|].
  destruct (Str.code c1 =? 58)%N; [|discriminate].
  destruct (pv t2) as [[v t3]|] eqn:Hv; [|discriminate].
  apply pv_wf in Hv.
  destruct (skip_ws t3) as [|c3 t4]; [discriminate|].
  destruct (Str.code c3 =? 44)%N.
  - eapply IH; [| |exact Hp]; [now apply obj_set_values | now apply obj_set_ordered].
  - destruct (Str.code c3 =? 125)%N; [|discriminate].
    injection Hp as <- _. split; [now apply obj_set_values | now apply obj_set_ordered].
Qed.

End LoopsWf.

Lemma ordered_nil : ordered [].
Proof. split; [reflexivity | constructor]. Qed.

Lemma parse_val_wf (fuel : nat) :
  forall s v r, parse_val fuel s = Some (v, r) -> wf v.
Proof.
  induction fuel as [|f IH]; intros s v r Hp; [discriminate|].
  cbn -[parse_number parse_chars strip_prefix parse_elems parse_members N.eqb] in Hp.
  destruct (skip_ws s) as [|c t]; [discriminate|].
  repeat match type of Hp with
         | (if ?b then _ else _) = _ => destruct b
         end.
  - destruct (parse_chars t) as [[x y]|]; [|discriminate].
    injection Hp as <- _. constructor.
  - destruct (skip_ws t) as [|c' t']; [discriminate|].
    destruct (Str.code c' =? 93)%N.
    + injection Hp as <- _. now repeat constructor.
    + destruct (parse_elems (parse_val f) f t []) as [[l y]|] eqn:He; [|discriminate].
      injection Hp as <- _. constructor.
      eapply parse_elems_wf; [exact IH | constructor | exact He].
  - destruct (skip_ws t) as [|c' t']; [discriminate|].
    destruct (Str.code c' =? 125)%N.
    + injection Hp as <- _. constructor; [constructor | apply ordered_nil].
    + destruct (parse_members (parse_val f) f t []) as [[o y]|] eqn:He; [|discriminate].
      injection Hp as <- _.
      destruct (parse_members_wf _ IH _ _ _ _ _ (Forall_nil _) ordered_nil He).
      now constructor.
  - destruct (strip_prefix "ull" t); [|discriminate]. injection Hp as <- _. constructor.
  - destruct (strip_prefix "rue" t); [|discriminate]. injection Hp as <- _. constructor.
  - destruct (strip_prefix "alse" t); [|discriminate]. injection Hp as <- _. constructor.
  - destruct (parse_number (String c t)) as [[z y]|]; [|discriminate].
    injection Hp as <- _. constructor.
Qed.

Theorem JSON_parse_wf (text : string) (v : value) :
  JSON_parse text = Ok v -> wf v.
Proof.
  unfold JSON_parse.
  destruct (parse_val _ text) as [[x r]|] eqn:Hp; [|discriminate].
  destruct (skip_ws r); [|discriminate].
  intros [= <-]. eapply parse_val_wf. exact Hp.
Qed.

(** ** The fingerprint of a query text *)

Lemma differ_refl (a : string) : differ_in_whitespace a a.
Proof. induction a; constructor; assumption. Qed.

Lemma differ_residue (a : string) : differ_in_whitespace a (remove_whitespace a).
Proof.
  induction a as [|c a IH]; simpl; [constructor|].
  destruct (is_space c) eqn:Hc; now constructor.
Qed.

Lemma differ_sym (a b : string) :
  differ_in_whitespace a b -> differ_in_whitespace b a.
Proof. induction 1; now constructor. Qed.

Lemma residue_eq (a b : string) :
  differ_in_whitespace a b -> remove_whitespace a = remove_whitespace b.
Proof.
  induction 1 as [|c a b _ IH|c a b Hc _ IH|c a b Hc _ IH]; simpl.
  - reflexivity.
  - now rewrite IH.
  - now rewrite Hc.
  - now rewrite Hc.
Qed.

Lemma differ_residue_l (a : string) :
  forall b, differ_in_whitespace (remove_whitespace a) b -> differ_in_whitespace a b.
Proof.
  induction a as [|c a IH]; simpl; intros b; [trivial|].
  destruct (is_space c) eqn:Hc; intros Hd.
  - constructor; auto.
  - remember (String c (remove_whitespace a)) as x eqn:Ex.
    induction Hd as [|c' a' b' Hd _|c' a' b' Hc' Hd _|c' a' b' Hc' Hd IHd].
    + discriminate.
    + injection Ex as -> ->. constructor. now apply IH.
    + injection Ex as -> ->. congruence.
    + apply dw_right; [exact Hc' | now apply IHd].
Qed.

(** Equal residues are exactly what differing only in white space means. *)
Lemma differ_iff (a b : string) :
  differ_in_whitespace a b <-> remove_whitespace a = remove_whitespace b.
Proof.
  split; [apply residue_eq|]. intros E.
  apply differ_residue_l. rewrite E. apply differ_sym, differ_residue.
Qed.

Lemma residue_clean (a : string) : has_whitespace (remove_whitespace a) = false.
Proof.
  induction a as [|c a IH]; simpl; [reflexivity|].
  destruct (is_space c) eqn:Hc; simpl; [exact IH | now rewrite Hc].
Qed.

(** C4. Two query texts that differ only in white space have the same
    fingerprint: [hashPostBody] hashes the text with every white-space
    character removed, nothing put in its place, and returns the SHA-256
    hex digest of that residue. *)
Theorem fingerprint_ignores_whitespace (a b : string) :
  differ_in_whitespace a b ->
  hashPostBody (Some (VStr a)) = hashPostBody (Some (VStr b))
  /\ hashPostBody (Some (VStr a)) = Ok (SHA256.hex (remove_whitespace a))
  /\ has_whitespace (remove_whitespace a) = false
  /\ differ_in_whitespace a (remove_whitespace a).
Proof.
  intros Hd. simpl. rewrite (residue_eq a b Hd). repeat split.
  - rewrite <- (residue_eq a b Hd). apply residue_clean.
  - rewrite <- (residue_eq a b Hd). apply differ_residue.
Qed.

Lemma fingerprint_ignores_whitespace_witness :
  differ_in_whitespace "{ books { title } }" "{books{title}}"
  /\ hashPostBody (Some (VStr "{ books { title } }"))
     = Ok "12debadd62748ce2d77fcc621819250bb0c4a7ac893f68633cd4c59573309784".
Proof.
  assert (H : differ_in_whitespace "{ books { title } }" "{books{title}}")
    by (apply differ_iff; reflexivity).
  split; [exact H|].
  destruct (fingerprint_ignores_whitespace _ _ H) as (_ & E & _).
  rewrite E. vm_compute. reflexivity.
Defined.

(** ** The minimum age *)

Lemma reduce_min (l : list value) (ms : list Z) :
  hint_ages l ms ->
  forall init,
    reduce min_hint l (Some (VNum (Fin init)))
    = Ok (Some (VNum (Fin (fold_left Z.min ms init)))).
Proof.
  induction 1 as [|p m l ms Hp _ IH]; intros init; simpl; [reflexivity|].
  unfold min_hint at 1. rewrite Hp. simpl.
  change (js_lt (Some (VNum (Fin m))) (Some (VNum (Fin init)))) with (m <? init).
  destruct (Z.ltb_spec m init);
    [rewrite Z.min_r by lia | rewrite Z.min_l by lia]; apply IH.
Qed.

Lemma fold_min_le (ms : list Z) :
  forall init, fold_left Z.min ms init <= init
               /\ Forall (fun m => fold_left Z.min ms init <= m) ms
               /\ In (fold_left Z.min ms init) (init :: ms).
Proof.
  induction ms as [|m ms IH]; intros init; simpl.
  - repeat split; [lia | constructor | now left].
  - destruct (IH (Z.min init m)) as (H1 & H2 & H3). repeat split.
    + lia.
    + constructor; [lia | exact H2].
    + destruct H3 as [H3|H3]; [|now right; right].
      rewrite <- H3. destruct (Z.min_spec init m) as [[_ ->]|[_ ->]]; auto.
Qed.

(** ** Running a handler *)

Section Run.

Context {S : Type} `{KeyValueCache S}.
Context {A B : Type}.
Implicit Types (k : A -> M S B) (w : world S).

Lemma bind_ret_l (a : A) k w : bind (ret a) k w = k a w.
Proof. reflexivity. Qed.

Lemma bind_lift_ok (a : A) k w : bind (lift (Ok a)) k w = k a w.
Proof. reflexivity. Qed.

Lemma bind_lift_throw (e : exn) k w : bind (lift (Throw e)) k w = (Throw e, w).
Proof. reflexivity. Qed.

Lemma bind_if (b : bool) (m1 m2 : M S A) k w :
  bind (if b then m1 else m2) k w = if b then bind m1 k w else bind m2 k w.
Proof. now destruct b. Qed.

Lemma bind_bind {C : Type} (m : M S C) (f : C -> M S A) k w :
  bind (bind m f) k w = bind m (fun c => bind (f c) k) w.
Proof. unfold bind. destruct (m w) as [[c|e] w']; reflexivity. Qed.

End Run.

Section RunOps.

Context {S : Type} `{KeyValueCache S}.
Context {B : Type}.
Implicit Types (w : world S).

Lemma bind_get_gqlResponse (k : jsval -> M S B) w :
  bind get_gqlResponse k w = k (gqlResponse w) w.
Proof. reflexivity. Qed.

Lemma bind_set_gqlResponse (v : jsval) (k : unit -> M S B) w :
  bind (set_gqlResponse v) k w
  = k tt {| store := store w; clock := clock w; statusCode := statusCode w;
            gqlResponse := v; trace := trace w |}.
Proof. reflexivity. Qed.

Lemma bind_Date_now (k : Z -> M S B) w : bind Date_now k w = k (clock w) w.
Proof. reflexivity. Qed.

Lemma bind_store_set (key value : string) (d : num) (k : unit -> M S B) w :
  bind (store_set key value d) k w
  = k tt (with_store w (kv_set key value (Some d) (clock w) (store w))).
Proof. reflexivity. Qed.

Lemma bind_store_get (key : string) (k : option string -> M S B) w :
  bind (store_get key) k w
  = k (fst (kv_get key (clock w) (store w)))
      (with_store w (snd (kv_get key (clock w) (store w)))).
Proof.
  unfold bind, store_get, with_store.
  destruct (kv_get key (clock w) (store w)); reflexivity.
Qed.

Lemma bind_emit (e : event) (k : unit -> M S B) w :
  bind (emit e) k w = k tt (with_trace w (trace w ++ [e])).
Proof. reflexivity. Qed.

End RunOps.

Lemma getProp_obj (k : string) (o : props) : getProp k (Some (VObj o)) = Ok (lookup k o).
Proof. reflexivity. Qed.

Lemma truthy_obj (o : props) : truthy (Some (VObj o)) = true.
Proof. reflexivity. Qed.

Lemma ToString_str (s : string) : ToString (Some (VStr s)) = s.
Proof. reflexivity. Qed.

(** One step of a handler: the head of the computation is run, and what it
    returns is passed on. *)
Ltac mstep :=
  first [ rewrite bind_bind | rewrite bind_ret_l | rewrite bind_lift_ok
        | rewrite bind_lift_throw
        | rewrite bind_get_gqlResponse | rewrite bind_set_gqlResponse
        | rewrite bind_Date_now | rewrite bind_store_set | rewrite bind_emit
        | rewrite getProp_obj | rewrite truthy_obj | rewrite ToString_str ];
  cbv beta iota.

Ltac run := repeat mstep.

Section StoreInCache.

Context {S : Type} `{KeyValueCache S}.

Lemma storeInCache_caches (req : request) (next : M S unit) (w : world S)
    (key text : string) (o : props) (l : list value) (ms : list Z) :
  fingerprint req = Ok (Some key) ->
  gqlResponse w = Some (VStr text) ->
  carries_hints text o l ->
  hint_ages l ms ->
  let duration := Fin (fold_left Z.min ms 60 * 1000) in
  storeInCache req next w
  = next (with_store w
            (kv_set key
               (cache_entry (JSON_stringify (VObj (obj_delete "extensions" o)))
                  (clock w) duration)
               (Some duration) (clock w) (store w))).
Proof.
  intros Hk Hg (Hp & eo & co & He & Hc & Hh) Ha duration.
  unfold fingerprint in Hk. unfold storeInCache.
  destruct (isPersistedQuery (request_data req)) as [pQuery|] eqn:Hpq;
    [|discriminate]. cbn [res_bind] in Hk.
  assert (Hmin := reduce_min l ms Ha 60).
  assert (Hrm : removeExtensions (Some (VStr text))
                = Ok (JSON_stringify (VObj (obj_delete "extensions" o)))).
  { unfold removeExtensions. rewrite ToString_str, Hp. reflexivity. }
  run.
  destruct ((method req =? "GET")%string && truthy pQuery)%bool eqn:Hget.
  - destruct (extractCacheKey pQuery) as [k|] eqn:Hx; [|discriminate].
    injection Hk as ->.
    apply andb_prop in Hget. destruct Hget as [Hm _].
    run. rewrite Hg. run. rewrite Hp. run. rewrite He. run. rewrite Hc. run.
    rewrite Hh. unfold min_age. rewrite Hmin. run. rewrite Hm, Hrm. run.
    reflexivity.
  - destruct (method req =? "POST")%string eqn:Hm; [|discriminate].
    destruct (getProp "query" (request_data req)) as [q|] eqn:Hq; [|discriminate].
    cbn [res_bind] in Hk. destruct (truthy q) eqn:Ht; [|discriminate].
    destruct (hashPostBody q) as [k|] eqn:Hx; [|discriminate].
    injection Hk as ->.
    assert (Hm' : (method req =? "GET")%string = false).
    { apply String.eqb_eq in Hm. rewrite Hm. reflexivity. }
    run. rewrite Ht. run. rewrite Hg. run. rewrite Hp. run. rewrite He. run.
    rewrite Hc. run. rewrite Hh. unfold min_age. rewrite Hmin. run.
    rewrite Hm'. cbn [res_bind]. rewrite Hx, Hrm. run. reflexivity.
Qed.

End StoreInCache.

(** ** The cache key of a request *)

Lemma fingerprint_some (req : request) (key : string) :
  fingerprint req = Ok (Some key) ->
  exists pQuery,
    isPersistedQuery (request_data req) = Ok pQuery
    /\ ((method req = "GET" /\ truthy pQuery = true
         /\ extractCacheKey pQuery = Ok key)
        \/ (method req = "POST"
            /\ exists q, getProp "query" (request_data req) = Ok q
                         /\ truthy q = true /\ hashPostBody q = Ok key)).
Proof.
  unfold fingerprint.
  destruct (isPersistedQuery (request_data req)) as [pQuery|]; [|discriminate].
  cbn [res_bind]. intros Hk. exists pQuery. split; [reflexivity|].
  destruct ((method req =? "GET")%string && truthy pQuery)%bool eqn:Hget.
  - left. apply andb_prop in Hget. destruct Hget as [Hm Ht].
    apply String.eqb_eq in Hm.
    destruct (extractCacheKey pQuery); [|discriminate].
    injection Hk as ->. auto.
  - right. destruct (method req =? "POST")%string eqn:Hm; [|discriminate].
    apply String.eqb_eq in Hm. split; [exact Hm|].
    destruct (getProp "query" (request_data req)) as [q|]; [|discriminate].
    cbn [res_bind] in Hk. exists q.
    destruct (truthy q); [|discriminate].
    destruct (hashPostBody q); [|discriminate].
    injection Hk as ->. auto.
Qed.

Lemma fingerprint_none (req : request) :
  fingerprint req = Ok None ->
  exists pQuery,
    isPersistedQuery (request_data req) = Ok pQuery
    /\ ((method req =? "GET")%string && truthy pQuery)%bool = false
    /\ ((method req =? "POST")%string = true ->
        exists q, getProp "query" (request_data req) = Ok q /\ truthy q = false).
Proof.
  unfold fingerprint.
  destruct (isPersistedQuery (request_data req)) as [pQuery|]; [|discriminate].
  cbn [res_bind]. intros Hk. exists pQuery. split; [reflexivity|].
  destruct ((method req =? "GET")%string && truthy pQuery)%bool.
  - destruct (extractCacheKey pQuery); discriminate.
  - split; [reflexivity|]. intros Hm. rewrite Hm in Hk.
    destruct (getProp "query" (request_data req)) as [q|]; [|discriminate].
    cbn [res_bind] in Hk. exists q. split; [reflexivity|].
    destruct (truthy q); [|reflexivity].
    destruct (hashPostBody q); discriminate.
Qed.


Section GetFromCache.

Context {S : Type} `{KeyValueCache S}.

Lemma sendContent_string (value : string) (cacheHit : bool) (w : world S) :
  sendContent (Some (VStr value)) cacheHit w
  = (Ok tt, with_trace w (trace w ++ content_events value cacheHit)).
Proof.
  unfold sendContent. run. unfold emit, with_trace, content_events. cbn.
  rewrite <- !app_assoc. reflexivity.
Qed.

Lemma bind_sendContent {B : Type} (value : string) (cacheHit : bool)
    (k : unit -> M S B) (w : world S) :
  bind (sendContent (Some (VStr value)) cacheHit) k w
  = k tt (with_trace w (trace w ++ content_events value cacheHit)).
Proof. unfold bind at 1. rewrite sendContent_string. reflexivity. Qed.

Lemma method_get_not_post (req : request) :
  method req = "GET" -> (method req =? "POST")%string = false.
Proof. now intros ->. Qed.

Lemma method_post_not_get (req : request) :
  method req = "POST" -> (method req =? "GET")%string = false.
Proof. now intros ->. Qed.

(** With no cache key, nothing is looked up and [next] is called. *)
Lemma getFromCacheIfAny_none (req : request) (w : world S) :
  fingerprint req = Ok None -> passes_on (getFromCacheIfAny req) w w.
Proof.
  intros Hk next. apply fingerprint_none in Hk.
  destruct Hk as (pQuery & Hpq & Hget & Hpost).
  unfold getFromCacheIfAny, lookup_cache. rewrite Hpq. run.
  rewrite Hget.
  destruct (method req =? "POST")%string eqn:Hm.
  - destruct (Hpost eq_refl) as (q & Hq & Ht). rewrite Hq. run. rewrite Ht. run.
    reflexivity.
  - run. reflexivity.
Qed.

(** A miss: the not-found answer for a GET without a query text, [next]
    otherwise. *)
Lemma getFromCacheIfAny_miss (req : request) (key : string) (next : M S unit)
    (w : world S) :
  fingerprint req = Ok (Some key) ->
  is_hit (fst (kv_get key (clock w) (store w))) = false ->
  let w1 := with_store w (snd (kv_get key (clock w) (store w))) in
  getFromCacheIfAny req next w
  = if (method req =? "GET")%string then
      match getProp "query" (request_data req) with
      | Ok q => if truthy q then next w1
                else sendContent (Some (VStr not_found_body)) false w1
      | Throw e => (Throw e, w1)
      end
    else next w1.
Proof.
  intros Hk Hmiss w1. apply fingerprint_some in Hk.
  destruct Hk as (pQuery & Hpq & [(Hm & Ht & Hx)|(Hm & q & Hq & Ht & Hx)]).
  - assert (Hg : (method req =? "GET")%string = true) by now rewrite Hm.
    unfold getFromCacheIfAny, lookup_cache. rewrite Hpq. run.
    rewrite (method_get_not_post req Hm), !Hg, !Ht. run. cbn [andb].
    rewrite Hx. run. rewrite bind_store_get. fold w1.
    destruct (fst (kv_get key (clock w) (store w))) as [v|];
      [simpl in Hmiss; rewrite Hmiss|]; run;
      (destruct (getProp "query" (request_data req)) as [q|e]; run;
       [destruct (truthy q); reflexivity | reflexivity]).
  - assert (Hp : (method req =? "POST")%string = true) by now rewrite Hm.
    unfold getFromCacheIfAny, lookup_cache. rewrite Hpq. run.
    rewrite (method_post_not_get req Hm), !Hp, !Hq. run. rewrite !Ht. run.
    rewrite Hx. run. rewrite bind_store_get. fold w1.
    destruct (fst (kv_get key (clock w) (store w))) as [v|];
      [simpl in Hmiss; rewrite Hmiss|]; run; reflexivity.
Qed.

Lemma getProp_total (k k' : string) (e : value) (x : jsval) :
  getProp k (Some e) = Ok x -> getProp k' (Some e) = Ok (field k' e).
Proof.
  unfold field. destruct e as [|b|n|s|l|o]; simpl; try discriminate; intros _;
    try reflexivity.
  - destruct (k' =? "length")%string; [reflexivity|].
    destruct (array_index k'); reflexivity.
  - destruct (k' =? "length")%string; [reflexivity|].
    destruct (array_index k'); reflexivity.
Qed.

(** A hit on an entry whose payload is a string: the payload is sent and
    [next] is not called. *)
Lemma getFromCacheIfAny_hit (req : request) (key v : string) (e : value)
    (payload : string) (w : world S) :
  fingerprint req = Ok (Some key) ->
  fst (kv_get key (clock w) (store w)) = Some v ->
  (v =? "")%string = false ->
  JSON_parse v = Ok e ->
  getProp "payload" (Some e) = Ok (Some (VStr payload)) ->
  let w1 := with_store w (snd (kv_get key (clock w) (store w))) in
  answers (getFromCacheIfAny req) w
    (with_trace w1 (trace w ++ hit_events req e payload (clock w))).
Proof.
  intros Hk Hv Hne Hp Hpl w1 next. apply fingerprint_some in Hk.
  pose proof (getProp_total _ "duration" _ _ Hpl) as Hd.
  pose proof (getProp_total _ "at" _ _ Hpl) as Ha.
  unfold hit_events.
  destruct Hk as (pQuery & Hpq & [(Hm & Ht & Hx)|(Hm & q & Hq & Ht & Hx)]).
  - assert (Hg : (method req =? "GET")%string = true) by now rewrite Hm.
    unfold getFromCacheIfAny, lookup_cache. rewrite Hpq. run.
    rewrite (method_get_not_post req Hm), !Hg, !Ht. run. cbn [andb].
    rewrite Hx. run. rewrite bind_store_get. fold w1. rewrite Hv, Hne.
    cbn [negb]. run. rewrite Hp. run. rewrite Hd. run. rewrite Ha. run.
    rewrite Hpl. run. rewrite bind_sendContent. run.
    unfold with_trace, w1, with_store, cache_control. cbn [trace store clock
      statusCode gqlResponse]. rewrite <- !app_assoc. reflexivity.
  - assert (Hpo : (method req =? "POST")%string = true) by now rewrite Hm.
    unfold getFromCacheIfAny, lookup_cache. rewrite Hpq. run.
    rewrite (method_post_not_get req Hm), !Hpo, !Hq. run. rewrite !Ht. run.
    rewrite Hx. run. rewrite bind_store_get. fold w1. rewrite Hv, Hne.
    cbn [negb]. run. rewrite Hp. run. rewrite Hpl. run.
    rewrite bind_sendContent. run. reflexivity.
Qed.

End GetFromCache.

(** ** Entries read back from the store *)

Lemma cache_entry_wf (payload : string) (at_ d : Z) :
  wf (VObj [("payload", VStr payload); ("at", VNum (Fin at_));
            ("duration", VNum (Fin d))]).
Proof.
  constructor.
  - repeat constructor.
  - split; [reflexivity|].
    repeat constructor; simpl; intuition discriminate.
Qed.

Lemma cache_entry_parse (payload : string) (at_ d : Z) :
  JSON_parse (cache_entry payload at_ (Fin d))
  = Ok (VObj [("payload", VStr payload); ("at", VNum (Fin at_));
              ("duration", VNum (Fin d))]).
Proof. apply JSON_parse_stringify, cache_entry_wf. Qed.

Lemma cache_entry_nonempty (payload : string) (at_ : Z) (d : num) :
  (cache_entry payload at_ d =? "")%string = false.
Proof. unfold cache_entry. rewrite stringify_obj. reflexivity. Qed.

(** [Math.round] of the difference of the two quotients is a rounding of
    one integer quotient. *)
Lemma duration_left_floor (d a now : Z) :
  Math_round (inject_Z d / inject_Z 1000 - inject_Z (now - a) / inject_Z 1000)
  = (d - (now - a) + 500) / 1000.
Proof.
  unfold Math_round.
  assert (E : (inject_Z d / inject_Z 1000 - inject_Z (now - a) / inject_Z 1000
               + (1 # 2) == (d - (now - a) + 500) # 1000)%Q).
  { unfold Qeq, Qdiv, Qminus, Qplus, Qmult, Qopp, Qinv, inject_Z. simpl. lia. }
  rewrite E. reflexivity.
Qed.

(** ** The gate *)


Lemma not_found_body_text : not_found_body = not_found_text.
Proof. reflexivity. Qed.

Section Gate.

Context {S : Type} `{KeyValueCache S}.


(** C8. A GET with a valid descriptor that misses the cache and has no
    query text is answered with the body
    [{"errors":[{"message":"PersistedQueryNotFound"}]}], the status code
    left as it was (200 on a new response), and [next] is not called. *)
Theorem persisted_query_not_found (req : request) (key : string) (q : jsval)
    (w : world S) :
  method req = "GET" ->
  fingerprint req = Ok (Some key) ->
  is_hit (fst (kv_get key (clock w) (store w))) = false ->
  getProp "query" (request_data req) = Ok q ->
  truthy q = false ->
  exists w',
    answers (getFromCacheIfAny req) w w'
    /\ trace w'
       = (trace w
          ++ [SetHeader "X-Cache" "MISS";
              SetHeader "Content-Type" "application/json";
              SetHeader "Content-Length" "49";
              Write not_found_text;
              End])%list
    /\ statusCode w' = statusCode w
    /\ (statusCode w = 200 -> statusCode w' = 200).
Proof.
  intros Hm Hk Hmiss Hq Ht.
  eexists. split; [|split; [|split]].
  - intros next. rewrite (getFromCacheIfAny_miss req key next w Hk Hmiss).
    rewrite Hm, Hq, Ht. cbn [String.eqb Ascii.eqb Bool.eqb].
    apply sendContent_string.
  - reflexivity.
  - reflexivity.
  - trivial.
Qed.

End Gate.

Lemma persisted_query_not_found_witness :
  exists w',
    answers (getFromCacheIfAny descriptor_get) (fresh empty_store 1000) w'
    /\ trace w' = content_events not_found_text false
    /\ statusCode w' = 200.
Proof.
  destruct (persisted_query_not_found descriptor_get "1.abc" None
              (fresh empty_store 1000))
    as (w' & Ha & Ht & Hs & _); try reflexivity.
  exists w'. repeat split; assumption.
Defined.


Section OneAction.

Context {S : Type} `{KeyValueCache S}.




End OneAction.

(** ** Metadata that is not a descriptor *)

Lemma lookup_delete_same (k : string) (o : props) : lookup k (obj_delete k o) = None.
Proof.
  induction o as [|[k' v] o IH]; simpl; [reflexivity|].
  destruct (k' =? k)%string eqn:E; simpl; [exact IH | now rewrite E].
Qed.

Lemma lookup_delete_other (k k' : string) (o : props) :
  k' <> k -> lookup k' (obj_delete k o) = lookup k' o.
Proof.
  intros Hne. induction o as [|[x v] o IH]; simpl; [reflexivity|].
  destruct (x =? k)%string eqn:E; simpl.
  - apply String.eqb_eq in E. subst x.
    destruct (String.eqb_spec k k'); [congruence | exact IH].
  - destruct (x =? k')%string; [reflexivity | exact IH].
Qed.

Lemma request_data_without (req : request) :
  request_data (without_extensions req) = drop_extensions (request_data req).
Proof. unfold request_data, without_extensions. simpl. now destruct (method req =? "POST")%string. Qed.

Lemma isPersistedQuery_drop (data pQuery : jsval) :
  isPersistedQuery data = Ok pQuery ->
  isPersistedQuery (drop_extensions data) = Ok (Some VNull).
Proof.
  unfold isPersistedQuery.
  destruct data as [[|b|n|s|l|o]|]; try discriminate; try reflexivity.
  intros _. simpl. now rewrite lookup_delete_same.
Qed.

Lemma getProp_query_drop (data : jsval) :
  getProp "query" (drop_extensions data) = getProp "query" data.
Proof.
  destruct data as [[|b|n|s|l|o]|]; try reflexivity.
  simpl. now rewrite lookup_delete_other by discriminate.
Qed.

Section InvalidDescriptor.

Context {S : Type} `{KeyValueCache S}.

(** C2. Metadata that [isPersistedQuery] reads without finding a
    descriptor (it parses, is not [null], and has no truthy
    [persistedQuery]) is treated as no descriptor: both handlers do what
    they do on the request without its [extensions].  Metadata that is
    not parseable makes [isPersistedQuery] throw, and both handlers stop
    there, with nothing written and [next] not called. *)
Theorem invalid_descriptor (req : request) (next : M S unit) (w : world S) :
  (forall pQuery,
      isPersistedQuery (request_data req) = Ok pQuery -> truthy pQuery = false ->
      getFromCacheIfAny req next w = getFromCacheIfAny (without_extensions req) next w
      /\ storeInCache req next w = storeInCache (without_extensions req) next w)
  /\ (forall e,
         isPersistedQuery (request_data req) = Throw e ->
         getFromCacheIfAny req next w = (Throw e, w)
         /\ storeInCache req next w = (Throw e, w))
  /\ (forall extensions e,
         getProp "extensions" (request_data req) = Ok extensions ->
         truthy extensions = true ->
         JSON_parse (ToString extensions) = Throw e ->
         isPersistedQuery (request_data req) = Throw e).
Proof.
  split; [|split].
  - intros pQuery Hpq Ht.
    pose proof (isPersistedQuery_drop _ _ Hpq) as Hpq'.
    unfold getFromCacheIfAny, storeInCache, lookup_cache.
    rewrite !request_data_without, Hpq, Hpq', !getProp_query_drop.
    change (method (without_extensions req)) with (method req).
    run. rewrite !Ht. change (truthy (Some VNull)) with false.
    rewrite !andb_false_r. split; [reflexivity|].
    destruct (method req =? "POST")%string eqn:Hm; [|reflexivity].
    apply String.eqb_eq in Hm. rewrite !(method_post_not_get req Hm). reflexivity.
  - intros e Hpq. unfold getFromCacheIfAny, storeInCache. rewrite Hpq.
    split; reflexivity.
  - intros extensions e Hx Ht Hp. unfold isPersistedQuery.
    rewrite Hx. cbn [res_bind]. rewrite Ht, Hp. reflexivity.
Qed.

End InvalidDescriptor.

(** Extensions that are not JSON: the handler throws where the same request
    without extensions calls [next]. *)
Lemma unparseable_extensions_throw :
  getFromCacheIfAny (extensions_get "{") next_done (fresh empty_store 1000)
  = (Throw SyntaxError, fresh empty_store 1000)
  /\ storeInCache (extensions_get "{") next_done (fresh empty_store 1000)
     = (Throw SyntaxError, fresh empty_store 1000)
  /\ getFromCacheIfAny (without_extensions (extensions_get "{")) next_done
       (fresh empty_store 1000)
     = (Ok tt, with_trace (fresh empty_store 1000) [Next]).
Proof. repeat split; reflexivity. Qed.

Lemma invalid_descriptor_witness :
  getFromCacheIfAny (extensions_get "{}") next_done (fresh empty_store 1000)
  = getFromCacheIfAny plain_get next_done (fresh empty_store 1000)
  /\ getFromCacheIfAny (extensions_get "{") next_done (fresh empty_store 1000)
     = (Throw SyntaxError, fresh empty_store 1000).
Proof.
  split.
  - destruct (invalid_descriptor (extensions_get "{}") next_done
                (fresh empty_store 1000)) as (H1 & _).
    apply (H1 None); reflexivity.
  - destruct (invalid_descriptor (extensions_get "{") next_done
                (fresh empty_store 1000)) as (_ & H2 & _).
    apply (H2 SyntaxError); reflexivity.
Defined.



(** ** The populator *)

Lemma fold_min_mono (ms : list Z) (a b : Z) :
  a <= b -> fold_left Z.min ms a <= fold_left Z.min ms b.
Proof.
  revert a b. induction ms as [|m ms IH]; intros a b Hab; simpl; [exact Hab|].
  apply IH. lia.
Qed.

Lemma fold_min_bound (ms : list Z) (lo init : Z) :
  lo <= init -> Forall (fun a => lo <= a) ms -> lo <= fold_left Z.min ms init.
Proof.
  intros Hi Hall. revert init Hi.
  induction Hall as [|m ms Hm _ IH]; intros init Hi; simpl; [exact Hi|].
  apply IH. lia.
Qed.

Section Populator.

Context {S : Type} `{KeyValueCache S}.

(** C7. [storeInCache] folds the hints with [min], starting from 60: the
    minimum age is the least of 60 and the hints' [maxAge], never above
    60, and 60 for an empty list; the entry is stored for that many
    seconds. *)
Theorem storeInCache_min_age (req : request) (w : world S) (key text : string)
    (o : props) (l : list value) (ms : list Z) :
  fingerprint req = Ok (Some key) ->
  gqlResponse w = Some (VStr text) ->
  carries_hints text o l ->
  hint_ages l ms ->
  let minAge := fold_left Z.min ms 60 in
  min_age (Some (VArr l)) = Ok (Some (VNum (Fin minAge)))
  /\ minAge <= 60
  /\ Forall (fun a => minAge <= a) ms
  /\ In minAge (60 :: ms)
  /\ (ms = [] -> minAge = 60)
  /\ forall next,
       storeInCache req next w
       = next (with_store w
                 (kv_set key
                    (cache_entry (JSON_stringify (VObj (obj_delete "extensions" o)))
                       (clock w) (Fin (minAge * 1000)))
                    (Some (Fin (minAge * 1000))) (clock w) (store w))).
Proof.
  intros Hk Hg Hc Ha minAge.
  destruct (fold_min_le ms 60) as (H1 & H2 & H3).
  repeat split; try assumption.
  - apply (reduce_min l ms Ha 60).
  - intros ->. reflexivity.
  - intros next. now apply (storeInCache_caches req next w key text o l ms).
Qed.


(** C9. On a text that parses to an object, [removeExtensions] returns the
    serialization of that object with the key [extensions] deleted: the
    result parses to an object that has no [extensions] and has every
    other key with the value, and in the order, it had; that text is what
    [extensionsFilter] forwards. *)
Theorem removeExtensions_only_extensions (s : string) (o : props) :
  JSON_parse s = Ok (VObj o) ->
  let o' := obj_delete "extensions" o in
  removeExtensions (Some (VStr s)) = Ok (JSON_stringify (VObj o'))
  /\ JSON_parse (JSON_stringify (VObj o')) = Ok (VObj o')
  /\ lookup "extensions" o' = None
  /\ (forall k, k <> "extensions" -> lookup k o' = lookup k o)
  /\ keys o' = filter (fun k => negb (k =? "extensions")%string) (keys o)
  /\ forall (next : M S unit) (w : world S),
       gqlResponse w = Some (VStr s) ->
       extensionsFilter next w
       = next (with_gqlResponse w (Some (VStr (JSON_stringify (VObj o'))))).
Proof.
  intros Hp o'.
  assert (Hrm : removeExtensions (Some (VStr s)) = Ok (JSON_stringify (VObj o'))).
  { unfold removeExtensions. rewrite ToString_str, Hp. reflexivity. }
  repeat split.
  - exact Hrm.
  - apply JSON_parse_stringify. apply JSON_parse_wf in Hp.
    inversion Hp as [| | | | |? Hv Ho]; subst. constructor.
    + unfold o', obj_delete. rewrite Forall_forall in *.
      intros kv Hin. apply filter_In in Hin. now apply Hv.
    + now apply obj_delete_ordered.
  - apply lookup_delete_same.
  - intros k Hk. now apply lookup_delete_other.
  - apply keys_delete.
  - intros next w Hg. unfold extensionsFilter. run. rewrite Hg, Hrm. run.
    reflexivity.
Qed.

End Populator.

Lemma books_carries_hints :
  carries_hints (books_response hints_65_30) (books_object hint_values_65_30)
    hint_values_65_30
  /\ hint_ages hint_values_65_30 [65; 30].
Proof.
  split; [split; [vm_compute; reflexivity|]|].
  - do 2 eexists. repeat split; reflexivity.
  - repeat constructor.
Qed.

Lemma storeInCache_min_age_witness :
  storeInCache books_post next_done
    (after_engine empty_store 1000 (books_response hints_65_30))
  = next_done
      (with_store (after_engine empty_store 1000 (books_response hints_65_30))
         (kv_set books_key (cache_entry books_data 1000 (Fin 30000))
            (Some (Fin 30000)) 1000 empty_store)).
Proof.
  exact (proj2 (proj2 (proj2 (proj2 (proj2
    (storeInCache_min_age books_post
       (after_engine empty_store 1000 (books_response hints_65_30))
       books_key (books_response hints_65_30) (books_object hint_values_65_30)
       hint_values_65_30 [65; 30] eq_refl eq_refl
       (proj1 books_carries_hints) (proj2 books_carries_hints))))))
    next_done).
Defined.



Lemma removeExtensions_only_extensions_witness :
  removeExtensions (Some (VStr (books_response hints_65_30))) = Ok books_data
  /\ JSON_parse books_data
     = Ok (VObj [("data", VObj [("books", VArr [VObj [("title", VStr "Jurassic Park")]])])]).
Proof.
  pose proof (@removeExtensions_only_extensions LRU.t
                (books_response hints_65_30) _ ltac:(vm_compute; reflexivity))
    as (H1 & H2 & _).
  split; [exact H1 | exact H2].
Defined.

(** ** The LRU store *)

Module LRUFacts.
Import LRU.

Lemma find_key (k : string) (l : list entry) (e : entry) :
  find k l = Some e -> e_key e = k.
Proof.
  induction l as [|x l IH]; simpl; [discriminate|].
  destruct (String.eqb_spec (e_key x) k) as [E|_]; [|exact IH].
  now intros [= <-].
Qed.

Lemma find_remove (k : string) (l : list entry) : find k (remove k l) = None.
Proof.
  induction l as [|x l IH]; simpl; [reflexivity|].
  destruct (e_key x =? k)%string eqn:E; simpl; [exact IH | now rewrite E].
Qed.

Lemma find_head (k : string) (e : entry) (l : list entry) :
  e_key e = k -> find k (e :: l) = Some e.
Proof. intros <-. simpl. now rewrite String.eqb_refl. Qed.

(** A look-up that was not a hit is not one the next time either. *)
Lemma miss_stays (k : string) (t t' : Z) (c : LRU.t) :
  is_hit (fst (get k t c)) = false ->
  is_hit (fst (get k t' (snd (get k t c)))) = false.
Proof.
  unfold get. destruct (find k (list_ c)) as [e|] eqn:Hf.
  - pose proof (find_key _ _ _ Hf) as Hk.
    destruct (isStale t e); cbn [fst snd list_ max].
    + intros _. now rewrite find_remove.
    + intros Hv. rewrite (find_head k e _ Hk).
      destruct (isStale t' e); [reflexivity | exact Hv].
  - cbn [fst snd]. intros _. now rewrite Hf.
Qed.

Lemma get_max (k : string) (t : Z) (c : LRU.t) : max (snd (get k t c)) = max c.
Proof.
  unfold get. destruct (find k (list_ c)) as [e|]; [|reflexivity].
  now destruct (isStale t e).
Qed.

Lemma trim_n_head (m : option Z) (e : entry) (n : nat) :
  over m (e_length e) = false ->
  forall l, exists l', trim_n n m (e :: l) = e :: l'.
Proof.
  intros He. induction n as [|n IH]; intros l; cbn [trim_n]; [eauto|].
  destruct (over m (total (e :: l))) eqn:Ho; [|eauto].
  destruct l as [|x l].
  - unfold total in Ho. cbn [fold_right] in Ho. rewrite Z.add_0_r in Ho.
    congruence.
  - change (removelast (e :: x :: l)) with (e :: removelast (x :: l)). apply IH.
Qed.

(** After [set] of an entry that fits, with a positive maximum age, the
    entry is found until that age has elapsed. *)
Lemma get_after_set (k v : string) (maxAge now t : Z) (c : LRU.t) :
  over (max c) (length_ v k) = false ->
  0 < maxAge ->
  t - now <= maxAge ->
  fst (get k t (set k v maxAge now c)) = Some v.
Proof.
  intros Hfit Hpos Ht.
  set (e := {| e_key := k; e_value := v; e_length := length_ v k;
               e_now := now; e_maxAge := maxAge |}).
  assert (Hz : (maxAge =? 0) = false) by (apply Z.eqb_neq; lia).
  assert (Hs : forall u, u - now <= maxAge -> isStale u e = false).
  { intros u Hu. unfold isStale. simpl. rewrite Hz. apply Z.ltb_ge. exact Hu. }
  assert (Hl : exists l', list_ (set k v maxAge now c) = e :: l').
  { unfold set. rewrite Hfit, Hz. fold e.
    destruct (find k (list_ c)); simpl.
    - rewrite (Hs now) by lia. apply trim_n_head. exact Hfit.
    - apply trim_n_head. exact Hfit. }
  destruct Hl as (l' & Hl). unfold get. rewrite Hl.
  rewrite (find_head k e l' eq_refl), (Hs t Ht). reflexivity.
Qed.

End LRUFacts.

(** ** The route *)

Section Route.

Context {S : Type} `{KeyValueCache S}.

Lemma graphqlHandler_resolved (took : Z) (text : string) (next : M S unit)
    (w : world S) :
  graphqlHandler took (Resolved text) next w = next (engine_done w took text).
Proof. reflexivity. Qed.

(** The last two handlers send the response without its extensions. *)
Lemma send_filtered (text : string) (o : props) (w : world S) :
  JSON_parse text = Ok (VObj o) ->
  gqlResponse w = Some (VStr text) ->
  let payload := JSON_stringify (VObj (obj_delete "extensions" o)) in
  extensionsFilter graphqlResponseHandler w
  = (Ok tt, with_trace (with_gqlResponse w (Some (VStr payload)))
              (trace w ++ content_events payload false)).
Proof.
  intros Hp Hg payload. unfold extensionsFilter, graphqlResponseHandler.
  run. rewrite Hg. unfold removeExtensions. rewrite ToString_str, Hp.
  cbn [res_bind]. run. cbn [gqlResponse]. rewrite sendContent_string.
  reflexivity.
Qed.

(** Without [extensions.cacheControl] nothing is stored. *)
Lemma storeInCache_skips (req : request) (key text : string) (o : props)
    (next : M S unit) (w : world S) :
  fingerprint req = Ok (Some key) ->
  gqlResponse w = Some (VStr text) ->
  carries_no_hints text o ->
  storeInCache req next w = next w.
Proof.
  intros Hk Hg (Hp & Hno). apply fingerprint_some in Hk.
  destruct Hk as (pQuery & Hpq & [(Hm & Ht & Hx)|(Hm & q & Hq & Ht & Hx)]);
    unfold storeInCache; rewrite Hpq; run.
  - rewrite Hm at 1. rewrite Ht. cbn [String.eqb Ascii.eqb Bool.eqb andb]. run.
    rewrite Hg. run. rewrite Hp. run.
    destruct Hno as [Hf|(ext & He & Ht' & cc & Hc & Hf)].
    + rewrite Hf. run. rewrite Hf. run. reflexivity.
    + rewrite He, Ht', Hc. run. rewrite Hf. run. reflexivity.
  - rewrite (method_post_not_get req Hm). cbn [andb].
    rewrite Hm at 1. cbn [String.eqb Ascii.eqb Bool.eqb]. rewrite Hq. run.
    rewrite Ht. run. rewrite Hg. run. rewrite Hp. run.
    destruct Hno as [Hf|(ext & He & Ht' & cc & Hc & Hf)].
    + rewrite Hf. run. rewrite Hf. run. reflexivity.
    + rewrite He, Ht', Hc. run. rewrite Hf. run. reflexivity.
Qed.

End Route.

(** ** Two requests in a row *)

Lemma route_after_miss (req : request) (key text : string) (took : Z)
    (w0 : world LRU.t) :
  fingerprint req = Ok (Some key) ->
  method req = "POST" ->
  is_hit (fst (kv_get key (clock w0) (store w0))) = false ->
  graphql_route req took (Resolved text) w0
  = storeInCache req (extensionsFilter graphqlResponseHandler)
      (engine_done (with_store w0 (snd (kv_get key (clock w0) (store w0)))) took text).
Proof.
  intros Hk Hm Hmiss. unfold graphql_route.
  rewrite (getFromCacheIfAny_miss req key _ w0 Hk Hmiss).
  rewrite (method_post_not_get req Hm). apply graphqlHandler_resolved.
Qed.

(** C5. When the engine's response has no [extensions.cacheControl],
    [storeInCache] writes nothing to the store and leaves the response
    object as it is; after a POST that missed the cache and got such a
    response, the same POST misses again and reaches the engine. *)
Theorem no_hints_no_caching (req : request) (key text : string) (o : props)
    (took : Z) (w0 w2 : world LRU.t) :
  fingerprint req = Ok (Some key) ->
  carries_no_hints text o ->
  (forall (next : M LRU.t unit) (w : world LRU.t),
      gqlResponse w = Some (VStr text) -> storeInCache req next w = next w)
  /\ (method req = "POST" ->
      is_hit (fst (kv_get key (clock w0) (store w0))) = false ->
      store (snd (graphql_route req took (Resolved text) w0))
      = snd (kv_get key (clock w0) (store w0))
      /\ (store w2 = store (snd (graphql_route req took (Resolved text) w0)) ->
          passes_on (getFromCacheIfAny req) w2
            (with_store w2 (snd (kv_get key (clock w2) (store w2)))))).
Proof.
  intros Hk Hno. split.
  - intros next w Hg. eapply storeInCache_skips; eassumption.
  - intros Hm Hmiss.
    rewrite (route_after_miss req key text took w0 Hk Hm Hmiss).
    rewrite (storeInCache_skips req key text o
               (extensionsFilter graphqlResponseHandler)
               (engine_done (with_store w0 (snd (kv_get key (clock w0) (store w0))))
                  took text) Hk eq_refl Hno).
    rewrite (send_filtered text o
               (engine_done (with_store w0 (snd (kv_get key (clock w0) (store w0))))
                  took text) (proj1 Hno) eq_refl).
    cbn [snd store with_trace with_gqlResponse engine_done with_store].
    split; [reflexivity|]. intros Hs next.
    assert (Hmiss2 : is_hit (fst (kv_get key (clock w2) (store w2))) = false).
    { rewrite Hs. apply LRUFacts.miss_stays. exact Hmiss. }
    rewrite (getFromCacheIfAny_miss req key next w2 Hk Hmiss2).
    now rewrite (method_post_not_get req Hm).
Qed.

(** C3. A POST with a query text misses the cache, the engine answers with
    positive hints, and [storeInCache] stores the answer (which fits the
    store): the same POST, made before the stored duration has elapsed,
    is answered from the store with the cached payload and [X-Cache: HIT],
    and [next] is not called. *)
Theorem second_post_is_hit (req : request) (key text : string) (o : props)
    (l : list value) (ms : list Z) (took : Z) (w0 w2 : world LRU.t) :
  method req = "POST" ->
  fingerprint req = Ok (Some key) ->
  is_hit (fst (kv_get key (clock w0) (store w0))) = false ->
  carries_hints text o l ->
  hint_ages l ms ->
  Forall (fun a => 0 < a) ms ->
  let payload := JSON_stringify (VObj (obj_delete "extensions" o)) in
  let duration := fold_left Z.min ms 60 * 1000 in
  let stored_at := clock w0 + took in
  LRU.over (LRU.max (store w0))
    (LRU.length_ (cache_entry payload stored_at (Fin duration)) key) = false ->
  store w2 = store (snd (graphql_route req took (Resolved text) w0)) ->
  clock w2 - stored_at <= duration ->
  trace (snd (graphql_route req took (Resolved text) w0))
  = (trace w0 ++ content_events payload false)%list
  /\ exists w',
       answers (getFromCacheIfAny req) w2 w'
       /\ trace w' = (trace w2 ++ content_events payload true)%list.
Proof.
  intros Hm Hk Hmiss Hc Ha Hpos payload duration stored_at Hfit Hs Ht.
  rewrite (route_after_miss req key text took w0 Hk Hm Hmiss) in *.
  set (w1 := engine_done (with_store w0 (snd (kv_get key (clock w0) (store w0))))
               took text) in *.
  rewrite (storeInCache_caches req (extensionsFilter graphqlResponseHandler) w1
             key text o l ms Hk eq_refl Hc Ha) in *.
  change (clock w1) with stored_at in *.
  fold payload duration in Hs |- *.
  set (w1' := with_store w1 _) in *.
  rewrite (send_filtered text o w1' (proj1 Hc) eq_refl) in *.
  fold payload in Hs |- *.
  cbn [snd store clock trace with_trace with_gqlResponse engine_done with_store
       w1' w1] in Hs |- *.
  split; [reflexivity|].
  assert (Hd : 0 < duration).
  { unfold duration. pose proof (fold_min_bound ms 1 60 ltac:(lia)) as Hb.
    enough (1 <= fold_left Z.min ms 60) by lia. apply Hb.
    eapply Forall_impl; [|exact Hpos]. simpl. lia. }
  assert (Hget : fst (kv_get key (clock w2) (store w2))
                 = Some (cache_entry payload stored_at (Fin duration))).
  { rewrite Hs. cbn [kv_get kv_set LRUCache].
    replace (negb (duration =? 0)) with true
      by (symmetry; apply negb_true_iff, Z.eqb_neq; lia).
    apply LRUFacts.get_after_set; [|exact Hd | exact Ht].
    rewrite LRUFacts.get_max. exact Hfit. }
  eexists. split.
  - eapply getFromCacheIfAny_hit;
      [exact Hk | exact Hget | apply cache_entry_nonempty
      | apply cache_entry_parse | reflexivity].
  - unfold hit_events. rewrite (method_post_not_get req Hm). reflexivity.
Qed.

Lemma second_post_is_hit_witness :
  exists w',
    answers (getFromCacheIfAny books_post)
      (fresh (store_after_books (books_response hints_65_30)) 31005) w'
    /\ trace w' = content_events books_data true.
Proof.
  destruct (second_post_is_hit books_post books_key (books_response hints_65_30)
              (books_object hint_values_65_30) hint_values_65_30 [65; 30] 5
              (fresh empty_store 1000)
              (fresh (store_after_books (books_response hints_65_30)) 31005)
              eq_refl eq_refl eq_refl
              (proj1 books_carries_hints) (proj2 books_carries_hints))
    as (_ & w' & Ha & Ht).
  - repeat constructor.
  - vm_compute. reflexivity.
  - reflexivity.
  - vm_compute. discriminate.
  - exists w'. split; [exact Ha | exact Ht].
Defined.

Lemma no_hints_no_caching_witness :
  storeInCache books_post next_done (after_engine empty_store 1005 books_data)
  = next_done (after_engine empty_store 1005 books_data)
  /\ store_after_books books_data = empty_store
  /\ passes_on (getFromCacheIfAny books_post)
       (fresh (store_after_books books_data) 2000)
       (fresh (store_after_books books_data) 2000).
Proof.
  assert (Hno : carries_no_hints books_data
                  [("data", VObj [("books", VArr [VObj [("title", VStr "Jurassic Park")]])])]).
  { split; [vm_compute; reflexivity | left; reflexivity]. }
  destruct (no_hints_no_caching books_post books_key books_data _ 5
              (fresh empty_store 1000) (fresh (store_after_books books_data) 2000)
              eq_refl Hno) as (H1 & H2).
  destruct (H2 eq_refl eq_refl) as (H3 & H4).
  split; [|split].
  - apply H1. reflexivity.
  - exact H3.
  - exact (H4 eq_refl).
Defined.

(** * Further properties of the code *)

(** ** createLRUCache *)

Module StoreFacts.
Import LRU.

Lemma set_head (k v : string) (maxAge now : Z) (c : LRU.t) :
  over (max c) (length_ v k) = false ->
  0 <= maxAge ->
  exists l',
    list_ (set k v maxAge now c)
    = {| e_key := k; e_value := v; e_length := length_ v k;
         e_now := if maxAge =? 0 then 0 else now; e_maxAge := maxAge |} :: l'.
Proof.
  intros Hfit Hpos. unfold set. rewrite Hfit.
  set (e := {| e_key := k; e_value := v; e_length := length_ v k;
               e_now := if maxAge =? 0 then 0 else now; e_maxAge := maxAge |}).
  assert (Hs : isStale now e = false).
  { unfold isStale. cbn [e_maxAge e_now e].
    destruct (Z.eqb_spec maxAge 0) as [E|E]; [reflexivity|].
    apply Z.ltb_ge. lia. }
  destruct (find k (list_ c)); cbn [list_].
  - rewrite Hs. now apply LRUFacts.trim_n_head.
  - now apply LRUFacts.trim_n_head.
Qed.

(** What [get] gives right after [set], at any time. *)
Lemma get_set (k v : string) (maxAge now t : Z) (c : LRU.t) :
  over (max c) (length_ v k) = false ->
  0 <= maxAge ->
  fst (get k t (set k v maxAge now c))
  = if (maxAge =? 0) || (t - now <=? maxAge) then Some v else None.
Proof.
  intros Hfit Hpos.
  destruct (set_head k v maxAge now c Hfit Hpos) as (l' & Hl).
  unfold get. rewrite Hl. rewrite LRUFacts.find_head by reflexivity.
  unfold isStale. cbn [e_maxAge e_now e_value].
  destruct (Z.eqb_spec maxAge 0) as [E|E]; cbn [orb]; [reflexivity|].
  destruct (Z.ltb_spec maxAge (t - now)), (Z.leb_spec (t - now) maxAge);
    try reflexivity; lia.
Qed.

Lemma kv_set_unfold (k v : string) (d : option num) (now : Z) (c : LRU.t) :
  kv_set k v d now c = set k v (effective_ttl d) now c.
Proof.
  destruct d as [[z|]|]; cbn [kv_set LRUCache effective_ttl]; try reflexivity.
  destruct (Z.eqb_spec z 0) as [->|_]; reflexivity.
Qed.

End StoreFacts.

(** X1. On the store [createLRUCache] makes, an entry that fits and is set
    with a positive TTL is what [get] returns for its key until the TTL has
    elapsed, and is absent from then on. *)
Theorem lru_entry_expires (key value : string) (ttl now t : Z) (c : LRU.t) :
  LRU.over (LRU.max c) (LRU.length_ value key) = false ->
  0 < ttl ->
  (t - now <= ttl ->
   fst (kv_get key t (kv_set key value (Some (Fin ttl)) now c)) = Some value)
  /\ (ttl < t - now ->
      fst (kv_get key t (kv_set key value (Some (Fin ttl)) now c)) = None
      /\ forall t', fst (kv_get key t'
                           (snd (kv_get key t (kv_set key value (Some (Fin ttl)) now c))))
                    = None).
Proof.
  intros Hfit Hpos. rewrite StoreFacts.kv_set_unfold. cbn [effective_ttl kv_get LRUCache].
  assert (Hz : (ttl =? 0) = false) by (apply Z.eqb_neq; lia).
  split.
  - intros Ht. rewrite StoreFacts.get_set by (assumption || lia).
    rewrite Hz. cbn [orb]. now apply Z.leb_le in Ht as ->.
  - intros Ht.
    destruct (StoreFacts.set_head key value ttl now c Hfit ltac:(lia)) as (l' & Hl).
    unfold LRU.get. rewrite Hl, LRUFacts.find_head by reflexivity.
    unfold LRU.isStale. cbn [LRU.e_maxAge LRU.e_now]. rewrite Hz.
    apply Z.ltb_lt in Ht as ->. cbn [fst snd LRU.list_].
    split; [reflexivity|]. intros t'. now rewrite LRUFacts.find_remove.
Qed.

Lemma lru_entry_expires_witness :
  fst (kv_get "k" 2000 (kv_set "k" "v" (Some (Fin 1000)) 1000 empty_store)) = Some "v"
  /\ fst (kv_get "k" 2100 (kv_set "k" "v" (Some (Fin 1000)) 1000 empty_store)) = None.
Proof.
  destruct (lru_entry_expires "k" "v" 1000 1000 2000 empty_store) as (H1 & _);
    [reflexivity | lia |].
  destruct (lru_entry_expires "k" "v" 1000 1000 2100 empty_store) as (_ & H2);
    [reflexivity | lia |].
  split; [apply H1; lia | apply H2; lia].
Defined.

(** X2. [createLRUCache]'s [set] passes the TTL on only when it is truthy:
    an entry that fits and is set with no TTL, with 0 or with [NaN] has no
    expiry, and [get] returns it at any time. *)
Theorem lru_falsy_ttl_never_expires (key value : string) (duration : option num)
    (now t : Z) (c : LRU.t) :
  LRU.over (LRU.max c) (LRU.length_ value key) = false ->
  duration = None \/ duration = Some (Fin 0) \/ duration = Some NaN ->
  fst (kv_get key t (kv_set key value duration now c)) = Some value.
Proof.
  intros Hfit Hd. rewrite StoreFacts.kv_set_unfold.
  assert (He : effective_ttl duration = 0) by (destruct Hd as [->|[->| ->]]; reflexivity).
  rewrite He. cbn [kv_get LRUCache].
  rewrite StoreFacts.get_set by (assumption || lia). reflexivity.
Qed.

Lemma lru_falsy_ttl_never_expires_witness :
  fst (kv_get "k" 99999999 (kv_set "k" "v" (Some (Fin 0)) 1000 empty_store)) = Some "v".
Proof.
  apply lru_falsy_ttl_never_expires; [reflexivity | right; left; reflexivity].
Defined.

Module BoundFacts.
Import LRU.


Lemma total_cons (e : entry) (l : list entry) : total (e :: l) = e_length e + total l.
Proof. reflexivity. Qed.

Lemma lengths_nonneg_total (l : list entry) : lengths_nonneg l -> 0 <= total l.
Proof.
  induction 1 as [|e l He _ IH]; [reflexivity|]. rewrite total_cons. lia.
Qed.








End BoundFacts.



(** ** Cache keys *)






Lemma no_dot_split (v1 v2 h1 h2 : string) :
  has_dot v1 = false -> has_dot v2 = false ->
  v1 ++ "." ++ h1 = v2 ++ "." ++ h2 -> v1 = v2 /\ h1 = h2.
Proof.
  revert v2. induction v1 as [|c v1 IH]; intros [|d v2]; simpl; intros H1 H2 E.
  - injection E as <-. auto.
  - injection E as <- _. discriminate H2.
  - injection E as -> _. discriminate H1.
  - apply orb_false_elim in H1, H2. injection E as <- E.
    destruct (IH v2 (proj2 H1) (proj2 H2) E) as [-> ->]. auto.
Qed.

(** X5. [extractCacheKey] joins version and hash with a dot and nothing
    else: two descriptors whose versions hold no dot have the same key only
    when they are the same descriptor, while a dot in the version can be
    moved into the hash without changing the key. *)
Theorem extractCacheKey_separation (v1 h1 v2 h2 : string) :
  extractCacheKey (descriptor v1 h1) = Ok (v1 ++ "." ++ h1)
  /\ (has_dot v1 = false -> has_dot v2 = false ->
      extractCacheKey (descriptor v1 h1) = extractCacheKey (descriptor v2 h2) ->
      v1 = v2 /\ h1 = h2)
  /\ extractCacheKey (descriptor (v1 ++ "." ++ v2) h1)
     = extractCacheKey (descriptor v1 (v2 ++ "." ++ h1)).
Proof.
  split; [reflexivity|]. split.
  - intros H1 H2 E. injection E as E. now apply no_dot_split.
  - cbn. f_equal. now rewrite !append_assoc.
Qed.

Lemma extractCacheKey_separation_witness :
  has_dot "1" = false
  /\ extractCacheKey (descriptor "1" "abc") = Ok "1.abc"
  /\ ("1" = "1" /\ "abc" = "abc").
Proof.
  split; [reflexivity|]. split.
  - exact (proj1 (extractCacheKey_separation "1" "abc" "1" "abc")).
  - exact (proj1 (proj2 (extractCacheKey_separation "1" "abc" "1" "abc"))
             eq_refl eq_refl eq_refl).
Defined.

Lemma has_dot_app (a b : string) : has_dot (a ++ b) = has_dot a || has_dot b.
Proof.
  induction a as [|c a IH]; simpl; [reflexivity|]. now rewrite IH, orb_assoc.
Qed.

Lemma hex_digit_no_dot (n : N) :
  (n < 16)%N -> (Str.code (hex_digit n) =? 46)%N = false.
Proof.
  intros Hn.
  assert (Hall : forallb (fun i => negb (Str.code (hex_digit (N.of_nat i)) =? 46)%N)
                   (seq 0 16) = true) by reflexivity.
  rewrite forallb_forall in Hall.
  specialize (Hall (N.to_nat n)). rewrite N2Nat.id in Hall.
  apply negb_true_iff, Hall, in_seq. lia.
Qed.

Lemma hex8_no_dot (x : N) : has_dot (SHA256.hex8 x) = false.
Proof.
  unfold SHA256.hex8. cbn [map string_of_list_ascii has_dot].
  assert (Hd : forall i, (Str.code (hex_digit (N.land (N.shiftr x i) 15)) =? 46)%N = false).
  { intros i. apply hex_digit_no_dot.
    change 15%N with (N.ones 4). rewrite N.land_ones.
    apply N.mod_lt. discriminate. }
  now rewrite !Hd.
Qed.

Lemma concat_no_dot (l : list N) : has_dot (String.concat "" (map SHA256.hex8 l)) = false.
Proof.
  induction l as [|x [|y r] IH].
  - reflexivity.
  - apply hex8_no_dot.
  - change (String.concat "" (map SHA256.hex8 (x :: y :: r)))
      with (SHA256.hex8 x ++ "" ++ String.concat "" (map SHA256.hex8 (y :: r))).
    rewrite !has_dot_app, hex8_no_dot, IH. reflexivity.
Qed.

Lemma sha256_no_dot (s : string) : has_dot (SHA256.hex s) = false.
Proof. unfold SHA256.hex. apply concat_no_dot. Qed.

(** X6. The key of a GET with a descriptor always holds a dot and the key
    of a POST with a query text, a hex digest, never does: a persisted
    query and a posted query never share a cache entry. *)
Theorem key_spaces_disjoint (get post : request) (k1 k2 : string) :
  method get = "GET" -> fingerprint get = Ok (Some k1) ->
  method post = "POST" -> fingerprint post = Ok (Some k2) ->
  has_dot k1 = true /\ has_dot k2 = false /\ k1 <> k2.
Proof.
  intros Hg H1 Hp H2.
  assert (Hk1 : has_dot k1 = true).
  { destruct (fingerprint_some _ _ H1)
      as (pq & _ & [(_ & _ & Hx)|(Hm & _)]); [|congruence].
    unfold extractCacheKey in Hx.
    destruct (getProp "version" pq) as [v|]; [|discriminate]. cbn [res_bind] in Hx.
    destruct (getProp "sha256Hash" pq) as [h|]; [|discriminate].
    injection Hx as <-. rewrite !has_dot_app. cbn. now rewrite orb_true_r. }
  assert (Hk2 : has_dot k2 = false).
  { destruct (fingerprint_some _ _ H2)
      as (pq & _ & [(Hm & _)|(_ & q & _ & _ & Hx)]); [congruence|].
    destruct q as [[| | |s| |]|]; try discriminate Hx.
    injection Hx as <-. apply sha256_no_dot. }
  repeat split; try assumption. intros ->. congruence.
Qed.

Lemma key_spaces_disjoint_witness :
  has_dot "1.abc" = true /\ has_dot books_key = false /\ "1.abc" <> books_key.
Proof.
  exact (key_spaces_disjoint descriptor_get books_post "1.abc" books_key
           eq_refl eq_refl eq_refl eq_refl).
Defined.

(** ** More on the populator *)

Lemma reduce_min_opt (l : list value) (ms : list (option Z)) :
  hint_ages_opt l ms ->
  forall init,
    reduce min_hint l (Some (VNum (Fin init)))
    = Ok (Some (VNum (Fin (fold_left Z.min (present ms) init)))).
Proof.
  induction 1 as [|p m l ms Hp _ IH]; intros init; cbn [reduce present];
    [reflexivity|].
  unfold min_hint at 1. rewrite Hp. cbn [res_bind]. destruct m as [z|].
  - change (js_lt (Some (VNum (Fin z))) (Some (VNum (Fin init)))) with (z <? init).
    cbn [present fold_left].
    destruct (Z.ltb_spec z init);
      [rewrite Z.min_r by lia | rewrite Z.min_l by lia]; apply IH.
  - change (js_lt None (Some (VNum (Fin init)))) with false. apply IH.
Qed.

(** X7. A hint without a [maxAge] does not lower the minimum age: the
    comparison with [undefined] is false, so [storeInCache]'s reduction
    gives the least of 60 and the ages that are there, and 60 when no hint
    has one. *)
Theorem min_age_skips_missing (l : list value) (ms : list (option Z)) :
  hint_ages_opt l ms ->
  min_age (Some (VArr l)) = Ok (Some (VNum (Fin (fold_left Z.min (present ms) 60))))
  /\ fold_left Z.min (present ms) 60 <= 60
  /\ Forall (fun a => fold_left Z.min (present ms) 60 <= a) (present ms)
  /\ (present ms = [] -> fold_left Z.min (present ms) 60 = 60).
Proof.
  intros Ha. destruct (fold_min_le (present ms) 60) as (H1 & H2 & _).
  repeat split; try assumption.
  - apply (reduce_min_opt l ms Ha 60).
  - intros ->. reflexivity.
Qed.

Lemma min_age_skips_missing_witness :
  min_age (Some (VArr [VObj [("path", VArr [VStr "books"])];
                       VObj [("maxAge", VNum (Fin 30))];
                       VObj [("scope", VStr "PUBLIC")]]))
  = Ok (Some (VNum (Fin 30))).
Proof.
  refine (proj1 (min_age_skips_missing _ [None; Some 30; None] _)).
  repeat constructor.
Defined.

Section MorePopulator.

Context {S : Type} `{KeyValueCache S}.

(** X8. [storeInCache] reads the engine's response only for a request it
    can key.  For such a request a response that is not JSON makes it
    throw, and so does a [cacheControl] whose [hints] is not an array: in
    both cases nothing is stored and [next] is not called. *)
Theorem storeInCache_unreadable_response (req : request) (key text : string)
    (next : M S unit) (w : world S) :
  fingerprint req = Ok (Some key) ->
  gqlResponse w = Some (VStr text) ->
  (forall e, JSON_parse text = Throw e -> storeInCache req next w = (Throw e, w))
  /\ (forall o eo co,
         JSON_parse text = Ok (VObj o) ->
         lookup "extensions" o = Some (VObj eo) ->
         lookup "cacheControl" eo = Some (VObj co) ->
         (forall l, lookup "hints" co <> Some (VArr l)) ->
         storeInCache req next w = (Throw TypeError, w)).
Proof.
  intros Hk Hg. apply fingerprint_some in Hk.
  destruct Hk as (pQuery & Hpq & [(Hm & Ht & Hx)|(Hm & q & Hq & Ht & Hx)]).
  - assert (Hgb : (method req =? "GET")%string = true) by now rewrite Hm.
    split.
    + intros e He. unfold storeInCache. rewrite Hpq. run. rewrite Hgb, Ht.
      cbn [andb]. run. rewrite Hg. run. rewrite He. run. reflexivity.
    + intros o eo co Hp Hext Hcc Hh. unfold storeInCache. rewrite Hpq. run.
      rewrite Hgb, Ht. cbn [andb]. run. rewrite Hg. run. rewrite Hp. run.
      rewrite Hext. run. rewrite Hcc. run.
      unfold min_age. destruct (lookup "hints" co) as [[| | | |l|]|];
        try (run; reflexivity).
      now destruct (Hh l).
  - assert (Hpb : (method req =? "POST")%string = true) by now rewrite Hm.
    split.
    + intros e He. unfold storeInCache. rewrite Hpq. run.
      rewrite (method_post_not_get req Hm), Hpb. cbn [andb]. rewrite Hq. run.
      rewrite Ht. run. rewrite Hg. run. rewrite He. run. reflexivity.
    + intros o eo co Hp Hext Hcc Hh. unfold storeInCache. rewrite Hpq. run.
      rewrite (method_post_not_get req Hm), Hpb. cbn [andb]. rewrite Hq. run.
      rewrite Ht. run. rewrite Hg. run. rewrite Hp. run.
      rewrite Hext. run. rewrite Hcc. run.
      unfold min_age. destruct (lookup "hints" co) as [[| | | |l|]|];
        try (run; reflexivity).
      now destruct (Hh l).
Qed.

End MorePopulator.

Lemma storeInCache_unreadable_response_witness :
  storeInCache books_post next_done (after_engine empty_store 1005 "Bad Request")
  = (Throw SyntaxError, after_engine empty_store 1005 "Bad Request")
  /\ storeInCache books_post next_done
       (after_engine empty_store 1005 (unq "{'extensions':{'cacheControl':{'version':1}}}"))
     = (Throw TypeError,
        after_engine empty_store 1005 (unq "{'extensions':{'cacheControl':{'version':1}}}")).
Proof.
  split.
  - refine (proj1 (storeInCache_unreadable_response books_post books_key
              "Bad Request" next_done
              (after_engine empty_store 1005 "Bad Request") eq_refl eq_refl)
              SyntaxError _).
    vm_compute. reflexivity.
  - refine (proj2 (storeInCache_unreadable_response books_post books_key
              _ next_done
              (after_engine empty_store 1005
                 (unq "{'extensions':{'cacheControl':{'version':1}}}"))
              eq_refl eq_refl)
              [("extensions", VObj [("cacheControl", VObj [("version", VNum (Fin 1))])])]
              [("cacheControl", VObj [("version", VNum (Fin 1))])]
              [("version", VNum (Fin 1))] _ eq_refl eq_refl _).
    + vm_compute. reflexivity.
    + intros l. discriminate.
Defined.

(** ** More on the route *)

Section MoreRoute.

Context {S : Type} `{KeyValueCache S}.

Lemma emit_headers (headers : list (string * string)) (k : M S unit) (w : world S) :
  (fold_right (fun h k => emit (SetHeader (fst h) (snd h)) ;; k) (ret tt) headers ;; k) w
  = k (with_trace w (trace w ++ header_events headers)).
Proof.
  revert w. induction headers as [|h r IH]; intros w; cbn [fold_right header_events map].
  - run. rewrite List.app_nil_r. now destruct w.
  - run. rewrite IH. unfold with_trace. cbn [trace store clock statusCode gqlResponse].
    now rewrite <- app_assoc.
Qed.

(** X9. When the gate passes a request on and the engine fails, the route
    answers with the engine's headers, status and message and stops:
    [storeInCache] does not run, so the store is as the gate left it and
    the error is not cached.  Another kind of failure leaves the route
    with nothing written. *)
Theorem engine_error_not_cached (req : request) (headers : list (string * string))
    (status took : Z) (message : string) (w0 w1 : world S) :
  passes_on (getFromCacheIfAny req) w0 w1 ->
  graphql_route req took (QueryError headers status message) w0
  = (Ok tt, engine_failed w1 took status
              (header_events headers ++ [Write message; End]))
  /\ store (snd (graphql_route req took (QueryError headers status message) w0))
     = store w1
  /\ graphql_route req took OtherError w0
     = (Ok tt, engine_failed w1 took (statusCode w1) []).
Proof.
  intros Hp. unfold graphql_route. rewrite !Hp.
  assert (E : graphqlHandler took (QueryError headers status message)
                (storeInCache req (extensionsFilter graphqlResponseHandler)) w1
              = (Ok tt, engine_failed w1 took status
                          (header_events headers ++ [Write message; End]))).
  { unfold graphqlHandler. unfold bind at 1. cbv beta iota.
    rewrite emit_headers. unfold set_statusCode, emit, bind, engine_failed, with_trace.
    cbn [trace store clock statusCode gqlResponse].
    now rewrite <- !app_assoc. }
  rewrite E. repeat split.
  unfold graphqlHandler, bind, ret, engine_failed.
  cbn [trace store clock statusCode gqlResponse].
  now rewrite List.app_nil_r.
Qed.

Lemma storeInCache_none (req : request) (w : world S) :
  fingerprint req = Ok None -> passes_on (storeInCache req) w w.
Proof.
  intros Hk next. apply fingerprint_none in Hk.
  destruct Hk as (pQuery & Hpq & Hget & Hpost).
  unfold storeInCache. rewrite Hpq. run. rewrite Hget.
  destruct (method req =? "POST")%string eqn:Hm.
  - destruct (Hpost eq_refl) as (q & Hq & Ht). rewrite Hq. run. rewrite Ht. run.
    reflexivity.
  - run. reflexivity.
Qed.

(** X10. A request that is neither a GET with a descriptor nor a POST with
    a query text goes through the route without the store being read or
    written: both cache handlers call [next] in the world they got, and
    the client receives the engine's answer without its extensions, as a
    MISS. *)
Theorem unkeyed_request_bypasses_cache (req : request) (text : string) (o : props)
    (took : Z) (w : world S) :
  fingerprint req = Ok None ->
  JSON_parse text = Ok (VObj o) ->
  let payload := JSON_stringify (VObj (obj_delete "extensions" o)) in
  passes_on (getFromCacheIfAny req) w w
  /\ passes_on (storeInCache req) w w
  /\ graphql_route req took (Resolved text) w
     = (Ok tt,
        with_trace (with_gqlResponse (engine_done w took text) (Some (VStr payload)))
          (trace w ++ content_events payload false))
  /\ store (snd (graphql_route req took (Resolved text) w)) = store w.
Proof.
  intros Hk Hp payload.
  assert (Hr : graphql_route req took (Resolved text) w
               = (Ok tt,
                  with_trace (with_gqlResponse (engine_done w took text)
                                (Some (VStr payload)))
                    (trace w ++ content_events payload false))).
  { unfold graphql_route. rewrite (getFromCacheIfAny_none req w Hk).
    rewrite graphqlHandler_resolved.
    rewrite (storeInCache_none req (engine_done w took text) Hk).
    now rewrite (send_filtered text o (engine_done w took text) Hp eq_refl). }
  repeat split.
  - now apply getFromCacheIfAny_none.
  - now apply storeInCache_none.
  - exact Hr.
  - now rewrite Hr.
Qed.

End MoreRoute.

Lemma engine_error_not_cached_witness :
  graphql_route books_post 5 (QueryError [("Allow", "GET, POST")] 400 "Syntax Error")
    (fresh empty_store 1000)
  = (Ok tt,
     {| store := empty_store; clock := 1005; statusCode := 400; gqlResponse := None;
        trace := [SetHeader "Allow" "GET, POST"; Write "Syntax Error"; End] |}).
Proof.
  refine (proj1 (engine_error_not_cached books_post [("Allow", "GET, POST")] 400 5
                   "Syntax Error" (fresh empty_store 1000) (fresh empty_store 1000) _)).
  intros next. vm_compute. reflexivity.
Defined.

Lemma unkeyed_request_bypasses_cache_witness :
  graphql_route plain_get 5 (Resolved (books_response hints_65_30))
    (fresh empty_store 1000)
  = (Ok tt,
     {| store := empty_store; clock := 1005; statusCode := 200;
        gqlResponse := Some (VStr books_data);
        trace := content_events books_data false |}).
Proof.
  exact (proj1 (proj2 (proj2
    (unkeyed_request_bypasses_cache plain_get (books_response hints_65_30)
       (books_object hint_values_65_30) 5 (fresh empty_store 1000)
       eq_refl (proj1 (proj1 books_carries_hints)))))).
Defined.

(** ** More on removeExtensions and the descriptor *)

Lemma obj_delete_twice (k : string) (o : props) :
  obj_delete k (obj_delete k o) = obj_delete k o.
Proof.
  unfold obj_delete. induction o as [|[k' v] o IH]; cbn [filter fst]; [reflexivity|].
  destruct (negb (k' =? k)%string) eqn:E; cbn [filter fst]; [rewrite E|]; now rewrite IH.
Qed.

Lemma Ok_inj {A : Type} (a b : A) : Ok a = Ok b -> a = b.
Proof. now intros [=]. Qed.

(** X11. [removeExtensions] is idempotent: applied to its own result it
    returns that result again.  It throws on a text that is not JSON and
    on the text [null]. *)
Theorem removeExtensions_idempotent (s r : string) :
  removeExtensions (Some (VStr s)) = Ok r ->
  removeExtensions (Some (VStr r)) = Ok r
  /\ JSON_parse s <> Ok VNull
  /\ forall e, JSON_parse s <> Throw e.
Proof.
  unfold removeExtensions. rewrite !ToString_str.
  destruct (JSON_parse s) as [v|e] eqn:Hp; cbn [res_bind]; [|discriminate].
  pose proof (JSON_parse_wf _ _ Hp) as Hwf. intros Hr.
  assert (Hv : v <> VNull) by (intros ->; discriminate Hr).
  split; [|split; [congruence | discriminate]].
  destruct v as [|b|n|t|l|o]; try congruence.
  - apply (Ok_inj (JSON_stringify (VBool b)) r) in Hr. rewrite <- Hr.
    now rewrite (JSON_parse_stringify _ Hwf).
  - apply (Ok_inj (JSON_stringify (VNum n)) r) in Hr. rewrite <- Hr.
    now rewrite (JSON_parse_stringify _ Hwf).
  - apply (Ok_inj (JSON_stringify (VStr t)) r) in Hr. rewrite <- Hr.
    now rewrite (JSON_parse_stringify _ Hwf).
  - apply (Ok_inj (JSON_stringify (VArr l)) r) in Hr. rewrite <- Hr.
    now rewrite (JSON_parse_stringify _ Hwf).
  - apply (Ok_inj (JSON_stringify (VObj (obj_delete "extensions" o))) r) in Hr.
    rewrite <- Hr.
    assert (Hwf' : wf (VObj (obj_delete "extensions" o))).
    { inversion Hwf as [| | | | |? Hvs Ho]; subst. constructor.
      - unfold obj_delete. rewrite Forall_forall in *.
        intros kv Hin. apply filter_In in Hin. now apply Hvs.
      - now apply obj_delete_ordered. }
    rewrite (JSON_parse_stringify _ Hwf'). cbn [res_bind].
    now rewrite obj_delete_twice.
Qed.

Lemma removeExtensions_idempotent_witness :
  removeExtensions (Some (VStr (books_response hints_65_30))) = Ok books_data
  /\ removeExtensions (Some (VStr books_data)) = Ok books_data.
Proof.
  assert (H : removeExtensions (Some (VStr (books_response hints_65_30))) = Ok books_data)
    by (vm_compute; reflexivity).
  split; [exact H|].
  exact (proj1 (removeExtensions_idempotent _ _ H)).
Defined.

Section ObjectExtensions.

Context {S : Type} `{KeyValueCache S}.


End ObjectExtensions.


(** ** Two requests in a row, continued *)

Section RouteStores.

Context {S : Type} `{KeyValueCache S}.

(** The route when the gate passes a cacheable request on and the engine
    answers with hints. *)
Lemma route_stores (req : request) (key text : string) (o : props) (l : list value)
    (ms : list Z) (took : Z) (w0 w1 : world S) :
  passes_on (getFromCacheIfAny req) w0 w1 ->
  fingerprint req = Ok (Some key) ->
  carries_hints text o l ->
  hint_ages l ms ->
  let payload := JSON_stringify (VObj (obj_delete "extensions" o)) in
  let duration := fold_left Z.min ms 60 * 1000 in
  let stored :=
    kv_set key (cache_entry payload (clock w1 + took) (Fin duration))
      (Some (Fin duration)) (clock w1 + took) (store w1) in
  graphql_route req took (Resolved text) w0
  = (Ok tt,
     with_trace
       (with_gqlResponse (with_store (engine_done w1 took text) stored)
          (Some (VStr payload)))
       (trace w1 ++ content_events payload false)).
Proof.
  intros Hp Hk Hc Ha payload duration stored.
  unfold graphql_route. rewrite Hp, graphqlHandler_resolved.
  rewrite (storeInCache_caches req (extensionsFilter graphqlResponseHandler)
             (engine_done w1 took text) key text o l ms Hk eq_refl Hc Ha).
  cbv zeta. set (w' := with_store _ _).
  now rewrite (send_filtered text o w' (proj1 Hc) eq_refl).
Qed.

(** A GET with a descriptor and a query text that misses is passed on. *)
Lemma get_with_query_passes_on (req : request) (key : string) (q : jsval)
    (w : world S) :
  method req = "GET" ->
  fingerprint req = Ok (Some key) ->
  getProp "query" (request_data req) = Ok q ->
  truthy q = true ->
  is_hit (fst (kv_get key (clock w) (store w))) = false ->
  passes_on (getFromCacheIfAny req) w
    (with_store w (snd (kv_get key (clock w) (store w)))).
Proof.
  intros Hm Hk Hq Ht Hmiss next.
  rewrite (getFromCacheIfAny_miss req key next w Hk Hmiss).
  rewrite Hm, Hq, Ht. reflexivity.
Qed.

End RouteStores.

Lemma lru_get_stored (key v : string) (d now t : Z) (c : LRU.t) :
  LRU.over (LRU.max c) (LRU.length_ v key) = false ->
  0 <= d ->
  fst (kv_get key t (kv_set key v (Some (Fin d)) now c))
  = if (d =? 0) || (t - now <=? d) then Some v else None.
Proof.
  intros Hfit Hd. rewrite StoreFacts.kv_set_unfold. cbn [effective_ttl kv_get LRUCache].
  now apply StoreFacts.get_set.
Qed.

Lemma remaining_bounds (m elapsed : Z) :
  0 <= elapsed <= m * 1000 ->
  0 <= (m * 1000 - elapsed + 500) / 1000 <= m.
Proof.
  intros He. split.
  - apply Z.div_pos; lia.
  - enough ((m * 1000 - elapsed + 500) / 1000 < m + 1) by lia.
    apply Z.div_lt_upper_bound; lia.
Qed.

(** X13. A GET with a descriptor and a query text misses the cache, the
    engine answers with positive hints and the answer is stored under the
    descriptor's key.  Any GET with that descriptor, with or without a
    query text, made before the stored duration has elapsed is answered
    from the store, and the age it advertises in [Cache-Control] is what
    is left of the duration, rounded: between 0 and the minimum age, so
    never above 60. *)
Theorem descriptor_served_to_later_get (first later : request) (key text : string)
    (q : jsval) (o : props) (l : list value) (ms : list Z) (took : Z)
    (w0 w2 : world LRU.t) :
  method first = "GET" ->
  fingerprint first = Ok (Some key) ->
  getProp "query" (request_data first) = Ok q ->
  truthy q = true ->
  is_hit (fst (kv_get key (clock w0) (store w0))) = false ->
  carries_hints text o l ->
  hint_ages l ms ->
  Forall (fun a => 0 < a) ms ->
  let payload := JSON_stringify (VObj (obj_delete "extensions" o)) in
  let minAge := fold_left Z.min ms 60 in
  let stored_at := clock w0 + took in
  LRU.over (LRU.max (store w0))
    (LRU.length_ (cache_entry payload stored_at (Fin (minAge * 1000))) key) = false ->
  method later = "GET" ->
  fingerprint later = Ok (Some key) ->
  store w2 = store (snd (graphql_route first took (Resolved text) w0)) ->
  0 <= clock w2 - stored_at <= minAge * 1000 ->
  let remaining := (minAge * 1000 - (clock w2 - stored_at) + 500) / 1000 in
  (exists w',
      answers (getFromCacheIfAny later) w2 w'
      /\ trace w'
         = (trace w2
            ++ SetHeader "Cache-Control"
                 ("public, max-age=" ++ Z_toString remaining
                  ++ ", s-maxage=" ++ Z_toString remaining)
               :: content_events payload true)%list)
  /\ 0 <= remaining <= minAge
  /\ remaining <= 60.
Proof.
  intros Hm Hk Hq Htq Hmiss Hc Ha Hpos payload minAge stored_at Hfit Hm2 Hk2 Hs Ht
    remaining.
  pose proof (get_with_query_passes_on first key q w0 Hm Hk Hq Htq Hmiss) as Hp.
  rewrite (route_stores first key text o l ms took w0 _ Hp Hk Hc Ha) in Hs.
  cbn [snd store clock with_trace with_gqlResponse engine_done with_store] in Hs.
  fold payload minAge stored_at in Hs.
  assert (Hmin : 1 <= minAge).
  { apply fold_min_bound; [lia|]. eapply Forall_impl; [|exact Hpos]. simpl. lia. }
  assert (Hget : fst (kv_get key (clock w2) (store w2))
                 = Some (cache_entry payload stored_at (Fin (minAge * 1000)))).
  { rewrite Hs, lru_get_stored; [| now rewrite LRUFacts.get_max | lia].
    replace (minAge * 1000 =? 0) with false by (symmetry; apply Z.eqb_neq; lia).
    cbn [orb]. destruct Ht as [_ Ht]. now apply Z.leb_le in Ht as ->. }
  pose proof (fold_min_le ms 60) as (H60 & _).
  split; [|split; [now apply remaining_bounds | ]].
  - eexists. split.
    + eapply getFromCacheIfAny_hit;
        [exact Hk2 | exact Hget | apply cache_entry_nonempty
        | apply cache_entry_parse | reflexivity].
    + unfold hit_events. rewrite Hm2. cbn [String.eqb Ascii.eqb Bool.eqb].
      cbn [with_trace trace]. unfold cache_control, field.
      cbn [getProp lookup String.eqb Ascii.eqb Bool.eqb duration_left ToNumber].
      rewrite duration_left_floor. reflexivity.
  - pose proof (remaining_bounds minAge (clock w2 - stored_at) Ht). fold minAge in H60.
    unfold remaining. lia.
Qed.

Lemma descriptor_served_to_later_get_witness :
  exists w',
    answers (getFromCacheIfAny descriptor_get)
      (fresh (store_after descriptor_get_with_query (books_response hints_65_30)) 2505)
      w'
    /\ trace w'
       = SetHeader "Cache-Control" "public, max-age=29, s-maxage=29"
         :: content_events books_data true.
Proof.
  destruct (descriptor_served_to_later_get descriptor_get_with_query descriptor_get
              "1.abc" (books_response hints_65_30)
              (Some (VStr "{ books { title } }"))
              (books_object hint_values_65_30) hint_values_65_30 [65; 30] 5
              (fresh empty_store 1000)
              (fresh (store_after descriptor_get_with_query
                        (books_response hints_65_30)) 2505)
              eq_refl eq_refl eq_refl eq_refl eq_refl
              (proj1 books_carries_hints) (proj2 books_carries_hints))
    as ((w' & Ha & Ht) & _).
  - repeat constructor.
  - vm_compute. reflexivity.
  - reflexivity.
  - reflexivity.
  - reflexivity.
  - vm_compute. split; discriminate.
  - exists w'. split; [exact Ha | exact Ht].
Defined.

(** X14. Once the stored duration has elapsed the entry is gone: the same
    GET with only the descriptor is answered [PersistedQueryNotFound]
    again. *)
Theorem descriptor_expires (first later : request) (key text : string)
    (q q2 : jsval) (o : props) (l : list value) (ms : list Z) (took : Z)
    (w0 w2 : world LRU.t) :
  method first = "GET" ->
  fingerprint first = Ok (Some key) ->
  getProp "query" (request_data first) = Ok q ->
  truthy q = true ->
  is_hit (fst (kv_get key (clock w0) (store w0))) = false ->
  carries_hints text o l ->
  hint_ages l ms ->
  Forall (fun a => 0 < a) ms ->
  let payload := JSON_stringify (VObj (obj_delete "extensions" o)) in
  let minAge := fold_left Z.min ms 60 in
  let stored_at := clock w0 + took in
  LRU.over (LRU.max (store w0))
    (LRU.length_ (cache_entry payload stored_at (Fin (minAge * 1000))) key) = false ->
  method later = "GET" ->
  fingerprint later = Ok (Some key) ->
  getProp "query" (request_data later) = Ok q2 ->
  truthy q2 = false ->
  store w2 = store (snd (graphql_route first took (Resolved text) w0)) ->
  minAge * 1000 < clock w2 - stored_at ->
  exists w',
    answers (getFromCacheIfAny later) w2 w'
    /\ trace w' = (trace w2 ++ content_events not_found_text false)%list.
Proof.
  intros Hm Hk Hq Htq Hmiss Hc Ha Hpos payload minAge stored_at Hfit Hm2 Hk2 Hq2 Htq2
    Hs Ht.
  pose proof (get_with_query_passes_on first key q w0 Hm Hk Hq Htq Hmiss) as Hp.
  rewrite (route_stores first key text o l ms took w0 _ Hp Hk Hc Ha) in Hs.
  cbn [snd store clock with_trace with_gqlResponse engine_done with_store] in Hs.
  fold payload minAge stored_at in Hs.
  assert (Hmin : 1 <= minAge).
  { apply fold_min_bound; [lia|]. eapply Forall_impl; [|exact Hpos]. simpl. lia. }
  assert (Hget : fst (kv_get key (clock w2) (store w2)) = None).
  { rewrite Hs, lru_get_stored; [| now rewrite LRUFacts.get_max | lia].
    replace (minAge * 1000 =? 0) with false by (symmetry; apply Z.eqb_neq; lia).
    cbn [orb]. now apply Z.leb_gt in Ht as ->. }
  eexists. split.
  - intros next. rewrite (getFromCacheIfAny_miss later key next w2 Hk2)
      by now rewrite Hget.
    rewrite Hm2, Hq2, Htq2. cbn [String.eqb Ascii.eqb Bool.eqb].
    apply sendContent_string.
  - reflexivity.
Qed.

Lemma descriptor_expires_witness :
  exists w',
    answers (getFromCacheIfAny descriptor_get)
      (fresh (store_after descriptor_get_with_query (books_response hints_65_30)) 31006)
      w'
    /\ trace w' = content_events not_found_text false.
Proof.
  destruct (descriptor_expires descriptor_get_with_query descriptor_get
              "1.abc" (books_response hints_65_30)
              (Some (VStr "{ books { title } }")) None
              (books_object hint_values_65_30) hint_values_65_30 [65; 30] 5
              (fresh empty_store 1000)
              (fresh (store_after descriptor_get_with_query
                        (books_response hints_65_30)) 31006)
              eq_refl eq_refl eq_refl eq_refl eq_refl
              (proj1 books_carries_hints) (proj2 books_carries_hints))
    as (w' & Ha & Ht).
  - repeat constructor.
  - vm_compute. reflexivity.
  - reflexivity.
  - reflexivity.
  - reflexivity.
  - reflexivity.
  - reflexivity.
  - vm_compute. reflexivity.
  - exists w'. split; [exact Ha | exact Ht].
Defined.

(** X15. When the least hint is 0 the entry is stored with a TTL of 0,
    which the store takes as no TTL: the same POST is answered from the
    store at any later time, however long after. *)
Theorem zero_hint_cached_forever (req : request) (key text : string) (o : props)
    (l : list value) (ms : list Z) (took : Z) (w0 w2 : world LRU.t) :
  method req = "POST" ->
  fingerprint req = Ok (Some key) ->
  is_hit (fst (kv_get key (clock w0) (store w0))) = false ->
  carries_hints text o l ->
  hint_ages l ms ->
  Forall (fun a => 0 <= a) ms ->
  In 0 ms ->
  let payload := JSON_stringify (VObj (obj_delete "extensions" o)) in
  LRU.over (LRU.max (store w0))
    (LRU.length_ (cache_entry payload (clock w0 + took) (Fin 0)) key) = false ->
  store w2 = store (snd (graphql_route req took (Resolved text) w0)) ->
  exists w',
    answers (getFromCacheIfAny req) w2 w'
    /\ trace w' = (trace w2 ++ content_events payload true)%list.
Proof.
  intros Hm Hk Hmiss Hc Ha Hall Hin payload Hfit Hs.
  assert (Hp : passes_on (getFromCacheIfAny req) w0
                 (with_store w0 (snd (kv_get key (clock w0) (store w0))))).
  { intros next. rewrite (getFromCacheIfAny_miss req key next w0 Hk Hmiss).
    now rewrite (method_post_not_get req Hm). }
  rewrite (route_stores req key text o l ms took w0 _ Hp Hk Hc Ha) in Hs.
  cbn [snd store clock with_trace with_gqlResponse engine_done with_store] in Hs.
  fold payload in Hs.
  assert (Hz : fold_left Z.min ms 60 = 0).
  { pose proof (fold_min_le ms 60) as (_ & H2 & _).
    pose proof (fold_min_bound ms 0 60 ltac:(lia) Hall).
    rewrite Forall_forall in H2. specialize (H2 0 Hin). lia. }
  rewrite Hz in Hs. change (0 * 1000) with 0 in Hs.
  assert (Hget : fst (kv_get key (clock w2) (store w2))
                 = Some (cache_entry payload (clock w0 + took) (Fin 0))).
  { rewrite Hs, lru_get_stored; [reflexivity | now rewrite LRUFacts.get_max | lia]. }
  eexists. split.
  - eapply getFromCacheIfAny_hit;
      [exact Hk | exact Hget | apply cache_entry_nonempty
      | apply cache_entry_parse | reflexivity].
  - unfold hit_events. rewrite (method_post_not_get req Hm). reflexivity.
Qed.

Lemma zero_hint_cached_forever_witness :
  exists w',
    answers (getFromCacheIfAny books_post)
      (fresh (store_after books_post (books_response hints_0)) 1000000000) w'
    /\ trace w' = content_events books_data true.
Proof.
  destruct (zero_hint_cached_forever books_post books_key (books_response hints_0)
              (books_object hint_values_0) hint_values_0 [0] 5
              (fresh empty_store 1000)
              (fresh (store_after books_post (books_response hints_0)) 1000000000)
              eq_refl eq_refl eq_refl)
    as (w' & Ha & Ht).
  - split; [vm_compute; reflexivity|]. do 2 eexists. repeat split; reflexivity.
  - repeat constructor.
  - repeat constructor. lia.
  - now left.
  - vm_compute. reflexivity.
  - reflexivity.
  - exists w'. split; [exact Ha | exact Ht].
Defined.

(** ** lazyModule *)

Module ImporterFacts.
Import Importer.

Section Facts.

Variable module : Type.
Variable import_ : string -> option module.

Lemma cached_app (p : string) (a b : list (string * module)) :
  cached p (a ++ b)
  = match cached p a with Some m => Some m | None => cached p b end.
Proof.
  induction a as [|[q m] a IH]; cbn [cached app]; [reflexivity|].
  now destruct (q =? p)%string.
Qed.

Lemma cached_stays (p p' : string) (m : module) (st : state module) :
  cached p (MODULES st) = Some m ->
  cached p (MODULES (snd (lazyModule module import_ p' st))) = Some m.
Proof.
  intros Hc. unfold lazyModule.
  destruct (cached p' (MODULES st)); [exact Hc|].
  destruct (import_ p'); cbn [snd MODULES]; [|exact Hc].
  now rewrite cached_app, Hc.
Qed.

Lemma cached_after_calls (p : string) (m : module) (ps : list string) :
  forall st, cached p (MODULES st) = Some m ->
             cached p (MODULES (after_calls module import_ ps st)) = Some m.
Proof.
  induction ps as [|p' ps IH]; intros st Hc; [exact Hc|].
  cbn [after_calls fold_left]. apply IH. now apply cached_stays.
Qed.

Lemma lazyModule_caches (p : string) (m : module) (st st1 : state module) :
  lazyModule module import_ p st = (Some m, st1) -> cached p (MODULES st1) = Some m.
Proof.
  unfold lazyModule. destruct (cached p (MODULES st)) as [m0|] eqn:Hc.
  - now intros [= <- <-].
  - destruct (import_ p) as [m0|]; [|discriminate].
    intros [= <- <-]. cbn [MODULES]. rewrite cached_app, Hc. cbn [cached].
    now rewrite String.eqb_refl.
Qed.

End Facts.

End ImporterFacts.

(** X16. [lazyModule] imports a module once: after a call for a path has
    returned a module, every later call for that path, whatever other
    calls came in between, returns the same module and makes no call of
    [import]. *)
Theorem lazyModule_imports_once (module : Type) (import_ : string -> option module)
    (path : string) (m : module) (between : list string)
    (st st1 : Importer.state module) :
  Importer.lazyModule module import_ path st = (Some m, st1) ->
  let st2 := Importer.after_calls module import_ between st1 in
  Importer.lazyModule module import_ path st2 = (Some m, st2).
Proof.
  intros Hc st2. apply ImporterFacts.lazyModule_caches in Hc.
  unfold Importer.lazyModule, st2.
  now rewrite (ImporterFacts.cached_after_calls module import_ path m between st1 Hc).
Qed.

Lemma lazyModule_imports_once_witness :
  let import_ := fun p => if (p =? "/srv/server")%string then Some "app" else None in
  Importer.lazyModule string import_ "/srv/server"
    (Importer.after_calls string import_ ["/srv/other"; "/srv/server"]
       (snd (Importer.lazyModule string import_ "/srv/server" Importer.empty)))
  = (Some "app",
     {| Importer.MODULES := [("/srv/server", "app")];
        Importer.imported := ["/srv/server"; "/srv/other"] |}).
Proof.
  intros import_.
  exact (lazyModule_imports_once string import_ "/srv/server" "app"
           ["/srv/other"; "/srv/server"] Importer.empty _ eq_refl).
Defined.

Module ImporterCount.
Import Importer.

Section Count.

Variable module : Type.
Variable import_ : string -> option module.





End Count.

End ImporterCount.



(** ** What a handler may do to the response *)

Module OutcomeFacts.

Section Rules.

Context {S : Type} `{KeyValueCache S}.

Lemma same_fields_refl (w : world S) : same_fields w w.
Proof. repeat split. Qed.

Lemma same_fields_trans (w1 w2 w3 : world S) :
  same_fields w1 w2 -> same_fields w2 w3 -> same_fields w1 w3.
Proof.
  unfold same_fields. intros (a & b & c) (a' & b' & c').
  repeat split; congruence.
Qed.

Lemma silent_ret {A : Type} (a : A) : silent (ret a : M S A).
Proof. intros w. split; [apply same_fields_refl | reflexivity]. Qed.

Lemma silent_lift {A : Type} (r : res A) : silent (lift r : M S A).
Proof. intros w. split; [apply same_fields_refl | reflexivity]. Qed.

Lemma silent_Date_now : silent (Date_now : M S Z).
Proof. intros w. split; [apply same_fields_refl | reflexivity]. Qed.

Lemma silent_store_get (key : string) : silent (store_get key).
Proof.
  intros w. unfold store_get.
  destruct (kv_get key (clock w) (store w)). split; [repeat split | reflexivity].
Qed.

Lemma silent_bind {A B : Type} (m : M S A) (k : A -> M S B) :
  silent m -> (forall a, silent (k a)) -> silent (bind m k).
Proof.
  intros Hm Hk w. unfold bind. specialize (Hm w).
  destruct (m w) as [[a|e] w1]; cbn [snd] in *; [|exact Hm].
  destruct Hm as [Hf Ht]. destruct (Hk a w1) as [Hf' Ht']. split.
  - eapply same_fields_trans; eassumption.
  - congruence.
Qed.

Lemma is_header_set (n v : string) : is_header (SetHeader n v).
Proof. now exists n, v. Qed.

Lemma sends_sendContent (value : jsval) (cacheHit : bool) :
  sends (sendContent value cacheHit : M S unit).
Proof.
  intros w. unfold sendContent.
  destruct value as [[| | |s| |]|];
    run; cbn [fst snd trace with_trace lift emit];
    (split; [repeat split|]).
  4: {
    exists [SetHeader "X-Cache" (if cacheHit then "HIT" else "MISS");
            SetHeader "Content-Type" "application/json";
            SetHeader "Content-Length" (Z_toString (Str.byteLength s))].
    split; [repeat constructor; apply is_header_set|].
    exists s. cbn [trace]. rewrite <- !app_assoc. reflexivity. }
  all: exists [SetHeader "X-Cache" (if cacheHit then "HIT" else "MISS");
               SetHeader "Content-Type" "application/json"];
    (split; [repeat constructor; apply is_header_set|]);
    rewrite <- !app_assoc; reflexivity.
Qed.

Lemma sends_emit {A : Type} (n v : string) (k : M S A) :
  sends k -> sends (emit (SetHeader n v) ;; k).
Proof.
  intros Hk w. rewrite bind_emit.
  destruct (Hk (with_trace w (trace w ++ [SetHeader n v]))) as (Hf & hs & Hh & Ht).
  split; [exact Hf|]. exists (SetHeader n v :: hs).
  split; [constructor; [apply is_header_set | exact Hh]|].
  cbn [trace with_trace] in Ht.
  destruct (fst (k (with_trace w (trace w ++ [SetHeader n v])))).
  - destruct Ht as (body & Ht). exists body. rewrite Ht, <- !app_assoc. reflexivity.
  - rewrite Ht, <- !app_assoc. reflexivity.
Qed.

Lemma gate_sends_true {A : Type} (m : M S A) :
  sends m -> gate_like (m ;; ret true).
Proof.
  intros Hm w. unfold bind, ret. destruct (Hm w) as (Hf & hs & Hh & Ht).
  destruct (m w) as [[a|e] w1]; cbn [fst snd] in *; (split; [exact Hf|]).
  - destruct Ht as (body & Ht). exists hs, body. split; assumption.
  - exists hs. split; assumption.
Qed.

Lemma gate_emit {A : Type} (n v : string) (m : M S A) :
  sends m -> gate_like (emit (SetHeader n v) ;; m ;; ret true).
Proof.
  intros Hm w.
  pose proof (gate_sends_true _ (sends_emit n v m Hm) w) as Hg.
  rewrite bind_bind in Hg. exact Hg.
Qed.

Lemma gate_ret_false : gate_like (ret false : M S bool).
Proof. intros w. split; [apply same_fields_refl | reflexivity]. Qed.


Lemma gate_bind_silent {A : Type} (m : M S A) (k : A -> M S bool) :
  silent m -> (forall a, gate_like (k a)) -> gate_like (bind m k).
Proof.
  intros Hm Hk w. unfold bind. specialize (Hm w).
  destruct (m w) as [[a|e] w1]; cbn [fst snd] in *.
  - destruct Hm as [Hf Ht]. destruct (Hk a w1) as [Hf' Hg]. split.
    + eapply same_fields_trans; eassumption.
    + rewrite <- Ht. exact Hg.
  - destruct Hm as [Hf Ht]. split; [exact Hf|].
    exists []. split; [constructor|]. now rewrite List.app_nil_r.
Qed.

Lemma gate_bind_gate (m kf : M S bool) :
  gate_like m -> gate_like kf ->
  gate_like (bind m (fun a : bool => if a then ret true else kf)).
Proof.
  intros Hm Hk w. unfold bind. specialize (Hm w).
  destruct (m w) as [[[|]|e] w1]; cbn [fst snd ret] in *; try exact Hm.
  destruct Hm as [Hf Ht]. destruct (Hk w1) as [Hf' Hg]. split.
  - eapply same_fields_trans; eassumption.
  - rewrite <- Ht. exact Hg.
Qed.

End Rules.

Ltac silent_tac :=
  repeat first
    [ apply silent_ret | apply silent_lift | apply silent_Date_now
    | apply silent_store_get
    | (apply silent_bind; [|intros ?])
    | match goal with
      | |- silent (if ?b then _ else _) => destruct b
      | |- silent (match ?x with _ => _ end) => destruct x
      end ].

Ltac gate_tac :=
  repeat first
    [ apply gate_ret_false
    | (apply gate_emit; apply sends_sendContent)
    | (apply gate_sends_true; apply sends_sendContent)
    | (apply gate_bind_silent; [solve [silent_tac] | intros ?])
    | match goal with
      | |- gate_like (if ?b then _ else _) => destruct b
      | |- gate_like (match ?x with _ => _ end) => destruct x
      end
    | progress cbv zeta ].

Section Gate.

Context {S : Type} `{KeyValueCache S}.

Lemma gate_like_lookup_cache (req : request) (data pQuery : jsval) :
  gate_like (lookup_cache req data pQuery).
Proof. unfold lookup_cache. gate_tac. Qed.

Lemma gate_like_gate (req : request) : gate_like (gate req).
Proof.
  unfold gate. cbv zeta.
  apply gate_bind_silent; [apply silent_lift | intros pQuery].
  apply gate_bind_gate; [apply gate_like_lookup_cache|].
  gate_tac.
Qed.

(** [getFromCacheIfAny] is its gate followed by [next] when the gate has
    not answered. *)
Lemma getFromCacheIfAny_gate (req : request) (next : M S unit) (w : world S) :
  getFromCacheIfAny req next w
  = bind (gate req) (fun a : bool => if a then ret tt else next) w.
Proof.
  unfold getFromCacheIfAny, gate. cbv zeta. unfold bind, lift, ret.
  destruct (isPersistedQuery (request_data req)) as [pQuery|e]; [|reflexivity].
  destruct (lookup_cache req (request_data req) pQuery w) as [[[|]|e] w1];
    [reflexivity| |reflexivity].
  destruct ((method req =? "GET")%string && truthy pQuery)%bool; [|reflexivity].
  destruct (getProp "query" (request_data req)) as [q|e]; [|reflexivity].
  destruct (negb (truthy q)); [|reflexivity].
  destruct (sendContent (Some (VStr not_found_body)) false w1) as [[[]|e] w2];
    reflexivity.
Qed.

End Gate.

End OutcomeFacts.

(** X18. Whatever the request and whatever the store holds,
    [getFromCacheIfAny] ends in one of three ways: it calls [next] as its
    last action having called nothing on the response; or it returns
    without calling [next], having set headers and then written and ended
    the response exactly once; or it throws, having at most set headers,
    with nothing written and [next] not called.  In each case the status
    code and the engine's response slot are as they were. *)
Theorem getFromCacheIfAny_outcomes {S : Type} `{KeyValueCache S} (req : request)
    (w : world S) :
  exists w',
    same_fields w w'
    /\ ((passes_on (getFromCacheIfAny req) w w' /\ trace w' = trace w)
        \/ (answers (getFromCacheIfAny req) w w'
            /\ one_response (trace w) (trace w'))
        \/ (exists e hs,
               (forall next, getFromCacheIfAny req next w = (Throw e, w'))
               /\ Forall is_header hs
               /\ trace w' = (trace w ++ hs)%list)).
Proof.
  destruct (OutcomeFacts.gate_like_gate req w) as [Hf Hg].
  exists (snd (gate req w)). split; [exact Hf|].
  destruct (gate req w) as [[[|]|e] w1] eqn:E; cbn [fst snd] in *.
  - right; left. split; [|exact Hg].
    intros next. rewrite OutcomeFacts.getFromCacheIfAny_gate. unfold bind.
    rewrite E. reflexivity.
  - left. split; [|exact Hg].
    intros next. rewrite OutcomeFacts.getFromCacheIfAny_gate. unfold bind.
    rewrite E. reflexivity.
  - right; right. destruct Hg as (hs & Hh & Ht). exists e, hs.
    split; [|split; assumption].
    intros next. rewrite OutcomeFacts.getFromCacheIfAny_gate. unfold bind.
    rewrite E. reflexivity.
Qed.

Module StoreOutcome.

Section Rules.

Context {S : Type} `{KeyValueCache S}.
Variable fp : res (option string).

Lemma bind_ext {A B : Type} (m : M S A) (k k' : A -> M S B) (w : world S) :
  (forall a w', k a w' = k' a w') -> bind m k w = bind m k' w.
Proof.
  intros Hk. unfold bind. destruct (m w) as [[a|e] w']; [apply Hk | reflexivity].
Qed.

Lemma sa_ret : stores_at_most fp (ret tt : M S unit).
Proof. intros w. right; left. reflexivity. Qed.

Lemma sa_ret_bind {A : Type} (a : A) (k : A -> M S unit) :
  stores_at_most fp (k a) -> stores_at_most fp (bind (ret a) k).
Proof. intros Hk w. exact (Hk w). Qed.

Lemma sa_lift {A : Type} (r : res A) (k : A -> M S unit) :
  (forall a, r = Ok a -> stores_at_most fp (k a)) ->
  stores_at_most fp (bind (lift r) k).
Proof.
  intros Hk w. destruct r as [a|e].
  - exact (Hk a eq_refl w).
  - left. now exists e.
Qed.

Lemma sa_get_gqlResponse (k : jsval -> M S unit) :
  (forall v, stores_at_most fp (k v)) ->
  stores_at_most fp (bind get_gqlResponse k).
Proof. intros Hk w. exact (Hk (gqlResponse w) w). Qed.

Lemma sa_Date_now (k : Z -> M S unit) :
  (forall now, stores_at_most fp (k now)) -> stores_at_most fp (bind Date_now k).
Proof. intros Hk w. exact (Hk (clock w) w). Qed.

Lemma sa_assoc {A B : Type} (m : M S A) (f : A -> M S B) (k : B -> M S unit) :
  stores_at_most fp (bind m (fun a => bind (f a) k)) ->
  stores_at_most fp (bind (bind m f) k).
Proof. intros Hk w. rewrite bind_bind. exact (Hk w). Qed.

Lemma sa_store_set (key value : string) (d : num) :
  fp = Ok (Some key) ->
  stores_at_most fp (store_set key value d ;; ret tt).
Proof. intros Hk w. right; right. exists key, value, d. split; [exact Hk | reflexivity]. Qed.

End Rules.

Ltac sa_tac :=
  repeat first
    [ apply sa_ret
    | apply sa_ret_bind
    | apply sa_assoc
    | (apply sa_lift; intros ? ?)
    | (apply sa_get_gqlResponse; intros ?)
    | (apply sa_Date_now; intros ?)
    | match goal with
      | |- stores_at_most _ (bind (if ?b then _ else _) _) => destruct b eqn:?
      end
    | progress cbv beta iota zeta ].

Section Alone.

Context {S : Type} `{KeyValueCache S}.

(** [storeInCache] is what it does before [next], followed by [next]. *)
Lemma storeInCache_next (req : request) (next : M S unit) (w : world S) :
  storeInCache req next w = bind (storeInCache req (ret tt)) (fun _ => next) w.
Proof.
  symmetry. unfold storeInCache. cbv zeta.
  rewrite bind_bind. apply bind_ext. intros pQuery w1.
  rewrite bind_bind. apply bind_ext. intros eligible w2.
  rewrite bind_bind. apply bind_ext. intros [] w3. reflexivity.
Qed.

Lemma storeInCache_alone (req : request) :
  stores_at_most (fingerprint req) (storeInCache req (ret tt)).
Proof.
  unfold storeInCache. cbv zeta.
  apply sa_lift. intros pQuery Hpq.
  destruct ((method req =? "GET")%string && truthy pQuery)%bool eqn:Hg.
  - apply andb_prop in Hg. destruct Hg as [Hm Ht]. rewrite Hm.
    sa_tac;
      (apply sa_store_set; unfold fingerprint; rewrite Hpq; cbn [res_bind];
       rewrite Hm, Ht; cbn [andb];
       match goal with Hx : extractCacheKey pQuery = Ok _ |- _ => rewrite Hx end;
       reflexivity).
  - destruct (method req =? "POST")%string eqn:Hp; [|sa_tac].
    assert (Hm : (method req =? "GET")%string = false).
    { apply String.eqb_eq in Hp. now rewrite Hp. }
    rewrite Hm.
    apply sa_assoc, sa_lift. intros q Hq. apply sa_ret_bind.
    destruct (truthy q) eqn:Ht; [|sa_tac].
    sa_tac;
      (apply sa_store_set; unfold fingerprint; rewrite Hpq; cbn [res_bind];
       rewrite Hm, Hp; cbn [andb]; rewrite Hq; cbn [res_bind]; rewrite Ht;
       match goal with Hx : res_bind _ _ = Ok _ |- _ =>
         rewrite Hq in Hx; cbn [res_bind] in Hx; rewrite Hx end;
       reflexivity).
Qed.

End Alone.

End StoreOutcome.

(** X19. Whatever the request and the engine's response, [storeInCache]
    ends in one of three ways: it throws having changed nothing, [next]
    not called; it calls [next] in the world it got; or it calls [next]
    after one [set] on the store, made under the request's cache key.  It
    calls nothing on the response, and never sets more than once. *)
Theorem storeInCache_outcomes {S : Type} `{KeyValueCache S} (req : request)
    (w : world S) :
  (exists e, forall next, storeInCache req next w = (Throw e, w))
  \/ passes_on (storeInCache req) w w
  \/ (exists key value d,
         fingerprint req = Ok (Some key)
         /\ passes_on (storeInCache req) w
              (with_store w (kv_set key value (Some d) (clock w) (store w)))).
Proof.
  destruct (StoreOutcome.storeInCache_alone req w)
    as [(e & He)|[He|(key & value & d & Hk & He)]].
  - left. exists e. intros next.
    rewrite StoreOutcome.storeInCache_next. unfold bind. rewrite He. reflexivity.
  - right; left. intros next.
    rewrite StoreOutcome.storeInCache_next. unfold bind. rewrite He. reflexivity.
  - right; right. exists key, value, d. split; [exact Hk|]. intros next.
    rewrite StoreOutcome.storeInCache_next. unfold bind. rewrite He. reflexivity.
Qed.

(** ** A stored value that [storeInCache] did not write *)

Section Unreadable.

Context {S : Type} `{KeyValueCache S}.

Lemma getProp_throws (k : string) (v : jsval) (e : exn) :
  getProp k v = Throw e -> e = TypeError /\ forall k', getProp k' v = Throw TypeError.
Proof.
  destruct v as [[|b|n|s|l|o]|]; simpl; try discriminate.
  - intros [= <-]. auto.
  - destruct (k =? "length")%string; [discriminate|].
    destruct (array_index k); discriminate.
  - destruct (k =? "length")%string; [discriminate|].
    destruct (array_index k); discriminate.
  - intros [= <-]. auto.
Qed.

Lemma sendContent_refused (value : jsval) (cacheHit : bool) (w : world S) :
  (forall p, value <> Some (VStr p)) ->
  sendContent value cacheHit w
  = (Throw TypeError,
     with_trace w (trace w ++ [SetHeader "X-Cache" (if cacheHit then "HIT" else "MISS");
                               SetHeader "Content-Type" "application/json"])).
Proof.
  intros Hv. unfold sendContent. run.
  destruct value as [[| | |s| |]|]; try (exfalso; apply (Hv s); reflexivity);
    unfold lift, with_trace; cbn [trace store clock statusCode gqlResponse];
    rewrite <- !app_assoc; reflexivity.
Qed.

End Unreadable.

(** X20. A hit on a stored value that is not an entry as [storeInCache]
    writes it is not answered.  When the value is not JSON,
    [getFromCacheIfAny] throws what [JSON.parse] throws with nothing
    called on the response; when it is JSON without a string [payload],
    the handler throws a [TypeError] having at most set headers: nothing
    is written, the response is not ended and [next] is not called. *)
Theorem unreadable_entry_throws {S : Type} `{KeyValueCache S} (req : request)
    (key v : string) (w : world S) :
  fingerprint req = Ok (Some key) ->
  fst (kv_get key (clock w) (store w)) = Some v ->
  (v =? "")%string = false ->
  let w1 := with_store w (snd (kv_get key (clock w) (store w))) in
  (forall e, JSON_parse v = Throw e ->
             forall next, getFromCacheIfAny req next w = (Throw e, w1))
  /\ (forall entry,
         JSON_parse v = Ok entry ->
         (forall p, getProp "payload" (Some entry) <> Ok (Some (VStr p))) ->
         exists hs,
           Forall is_header hs
           /\ forall next, getFromCacheIfAny req next w
                           = (Throw TypeError, with_trace w1 (trace w ++ hs))).
Proof.
  intros Hk Hv Hne w1. apply fingerprint_some in Hk.
  destruct Hk as (pQuery & Hpq & [(Hm & Ht & Hx)|(Hm & q & Hq & Ht & Hx)]).
  - assert (Hg : (method req =? "GET")%string = true) by now rewrite Hm.
    assert (Hstart : forall next,
      getFromCacheIfAny req next w
      = bind (entry <- lift (JSON_parse v) ;;
              duration <- lift (getProp "duration" (Some entry)) ;;
              at_ <- lift (getProp "at" (Some entry)) ;;
              payload <- lift (getProp "payload" (Some entry)) ;;
              now <- Date_now ;;
              emit (SetHeader "Cache-Control"
                      ("public, max-age="
                       ++ num_toString (duration_left duration at_ now)
                       ++ ", s-maxage="
                       ++ num_toString (duration_left duration at_ now))) ;;
              sendContent payload true ;;
              ret true)
          (fun answered : bool =>
             if answered then ret tt
             else
               notFound <- (if ((method req =? "GET")%string && truthy pQuery)%bool
                            then q <- lift (getProp "query" (request_data req)) ;;
                                 ret (negb (truthy q))
                            else ret false) ;;
               if notFound : bool then sendContent (Some (VStr not_found_body)) false
               else next) w1).
    { intros next. unfold getFromCacheIfAny, lookup_cache. rewrite Hpq. run.
      rewrite (method_get_not_post req Hm), !Hg, !Ht. run. cbn [andb].
      rewrite Hx. run. rewrite bind_store_get. fold w1. rewrite Hv, Hne.
      cbn [negb]. run. reflexivity. }
    split.
    + intros e He next. rewrite Hstart, He. run. reflexivity.
    + intros entry He Hp.
      destruct (getProp "payload" (Some entry)) as [payload|e] eqn:Hpl.
      * pose proof (getProp_total _ "duration" _ _ Hpl) as Hd.
        pose proof (getProp_total _ "at" _ _ Hpl) as Ha.
        eexists. split; [|intros next; rewrite Hstart, He; run;
                           rewrite Hd; run; rewrite Ha; run; rewrite Hpl; run;
                           unfold bind at 1; rewrite sendContent_refused;
                           [|intros p Hp'; apply (Hp p); now rewrite Hp'];
                           unfold with_trace, w1, with_store;
                           cbn [trace store clock statusCode gqlResponse];
                           rewrite <- !app_assoc; reflexivity].
        repeat constructor; apply OutcomeFacts.is_header_set.
      * destruct (getProp_throws _ _ _ Hpl) as [-> Hall].
        exists []. split; [constructor|]. intros next.
        rewrite Hstart, He. run. rewrite (Hall "duration"). run.
        unfold with_trace, w1, with_store.
        cbn [trace store clock statusCode gqlResponse].
        rewrite List.app_nil_r. reflexivity.
  - assert (Hpo : (method req =? "POST")%string = true) by now rewrite Hm.
    assert (Hstart : forall next,
      getFromCacheIfAny req next w
      = bind (entry <- lift (JSON_parse v) ;;
              payload <- lift (getProp "payload" (Some entry)) ;;
              sendContent payload true ;;
              ret true)
          (fun answered : bool =>
             if answered then ret tt
             else
               notFound <- (if ((method req =? "GET")%string && truthy pQuery)%bool
                            then q <- lift (getProp "query" (request_data req)) ;;
                                 ret (negb (truthy q))
                            else ret false) ;;
               if notFound : bool then sendContent (Some (VStr not_found_body)) false
               else next) w1).
    { intros next. unfold getFromCacheIfAny, lookup_cache. rewrite Hpq. run.
      rewrite (method_post_not_get req Hm), !Hpo, !Hq. run. rewrite !Ht. run.
      rewrite Hx. run. rewrite bind_store_get. fold w1. rewrite Hv, Hne.
      cbn [negb]. run. reflexivity. }
    split.
    + intros e He next. rewrite Hstart, He. run. reflexivity.
    + intros entry He Hp.
      destruct (getProp "payload" (Some entry)) as [payload|e] eqn:Hpl.
      * eexists. split; [|intros next; rewrite Hstart, He; run; rewrite Hpl; run;
                           unfold bind at 1; rewrite sendContent_refused;
                           [|intros p Hp'; apply (Hp p); now rewrite Hp'];
                           unfold with_trace, w1, with_store;
                           cbn [trace store clock statusCode gqlResponse];
                           reflexivity].
        repeat constructor; apply OutcomeFacts.is_header_set.
      * destruct (getProp_throws _ _ _ Hpl) as [-> Hall].
        exists []. split; [constructor|]. intros next.
        rewrite Hstart, He. run. rewrite Hpl. run.
        unfold with_trace, w1, with_store.
        cbn [trace store clock statusCode gqlResponse].
        rewrite List.app_nil_r. reflexivity.
Qed.

Lemma unreadable_entry_throws_witness :
  (forall next,
      getFromCacheIfAny books_post next (fresh (foreign_store "Bad Gateway") 2000)
      = (Throw SyntaxError,
         with_store (fresh (foreign_store "Bad Gateway") 2000)
           (snd (kv_get books_key 2000 (foreign_store "Bad Gateway")))))
  /\ exists hs,
       Forall is_header hs
       /\ forall next,
            getFromCacheIfAny books_post next (fresh (foreign_store "{}") 2000)
            = (Throw TypeError,
               with_trace
                 (with_store (fresh (foreign_store "{}") 2000)
                    (snd (kv_get books_key 2000 (foreign_store "{}"))))
                 ([] ++ hs)).
Proof.
  split.
  - refine (proj1 (unreadable_entry_throws books_post books_key "Bad Gateway"
                     (fresh (foreign_store "Bad Gateway") 2000) _ _ _)
              SyntaxError _); vm_compute; reflexivity.
  - refine (proj2 (unreadable_entry_throws books_post books_key "{}"
                     (fresh (foreign_store "{}") 2000) _ _ _)
              (VObj []) _ _);
      try (vm_compute; reflexivity).
    intros p. discriminate.
Defined.

(** ** The route as a whole *)

Section RouteOutcome.

Context {S : Type} `{KeyValueCache S}.

(** The last two handlers throw having changed nothing, or send one
    response. *)
Lemma tail_outcome (text : string) (w : world S) :
  gqlResponse w = Some (VStr text) ->
  (exists e, extensionsFilter graphqlResponseHandler w = (Throw e, w))
  \/ (exists stripped,
         extensionsFilter graphqlResponseHandler w
         = (Ok tt, with_trace (with_gqlResponse w (Some (VStr stripped)))
                     (trace w ++ content_events stripped false))).
Proof.
  intros Hg. unfold extensionsFilter, graphqlResponseHandler. run. rewrite Hg.
  destruct (removeExtensions (Some (VStr text))) as [stripped|e]; run.
  - right. exists stripped. cbn [gqlResponse]. rewrite sendContent_string.
    reflexivity.
  - left. now exists e.
Qed.

Lemma header_events_headers (headers : list (string * string)) :
  Forall is_header (header_events headers).
Proof.
  unfold header_events. induction headers as [|h r IH]; cbn [map]; constructor;
    [apply OutcomeFacts.is_header_set | exact IH].
Qed.

Lemma content_headers (value : string) (cacheHit : bool) :
  Forall is_header
    [SetHeader "X-Cache" (if cacheHit then "HIT" else "MISS");
     SetHeader "Content-Type" "application/json";
     SetHeader "Content-Length" (Z_toString (Str.byteLength value))].
Proof. repeat constructor; apply OutcomeFacts.is_header_set. Qed.

End RouteOutcome.

(** X21. Whatever the request, the store and the engine's outcome, the
    route calls [write] and [end] on the response at most once, after
    the headers and as the last thing it does.  When the route returns it
    has sent exactly one response, unless the engine failed with an error
    that is not a query error, which is handed on with nothing written;
    when the route throws, it has at most set headers and the response is
    not ended. *)
Theorem route_one_response {S : Type} `{KeyValueCache S} (req : request)
    (took : Z) (r : query_result) (w : world S) :
  exists hs,
    Forall is_header hs
    /\ match fst (graphql_route req took r w) with
       | Ok _ =>
           (exists body,
               trace (snd (graphql_route req took r w))
               = (trace w ++ hs ++ [Write body; End])%list)
           \/ (r = OtherError /\ trace (snd (graphql_route req took r w)) = trace w)
       | Throw _ => trace (snd (graphql_route req took r w)) = (trace w ++ hs)%list
       end.
Proof.
  destruct (graphql_route req took r w) as [res w'] eqn:E. cbn [fst snd].
  unfold graphql_route in E. rewrite OutcomeFacts.getFromCacheIfAny_gate in E.
  destruct (OutcomeFacts.gate_like_gate req w) as [_ Hg].
  unfold bind at 1 in E.
  destruct (gate req w) as [[[|]|e] w1]; cbn [fst snd] in Hg; cbv iota in E.
  - injection E as <- <-.
    destruct Hg as (hs & body & Ht & Hh). exists hs. split; [exact Hh|].
    left. now exists body.
  - destruct r as [text|headers status message|].
    + rewrite graphqlHandler_resolved in E.
      assert (Hw : trace (engine_done w1 took text) = trace w) by exact Hg.
      assert (Hq : gqlResponse (engine_done w1 took text) = Some (VStr text))
        by reflexivity.
      revert E Hw Hq. generalize (engine_done w1 took text). intros w2 E Hw Hq.
      rewrite StoreOutcome.storeInCache_next in E. unfold bind at 1 in E.
      destruct (StoreOutcome.storeInCache_alone req w2)
        as [(e & He)|[He|(key & value & d & Hk & He)]]; rewrite He in E.
      * injection E as <- <-. exists []. split; [constructor|].
        now rewrite List.app_nil_r.
      * destruct (tail_outcome text w2 Hq) as [(e & Ht)|(stripped & Ht)];
          rewrite Ht in E; injection E as <- <-.
        -- exists []. split; [constructor|]. now rewrite List.app_nil_r.
        -- eexists. split; [apply (content_headers stripped false)|].
           left. exists stripped. cbn [trace with_trace]. now rewrite Hw.
      * destruct (tail_outcome text
                    (with_store w2 (kv_set key value (Some d) (clock w2) (store w2)))
                    Hq) as [(e & Ht)|(stripped & Ht)];
          rewrite Ht in E; injection E as <- <-.
        -- exists []. split; [constructor|]. cbn [trace with_store].
           now rewrite List.app_nil_r.
        -- eexists. split; [apply (content_headers stripped false)|].
           left. exists stripped. cbn [trace with_trace with_store].
           now rewrite Hw.
    + exists (header_events headers). split; [apply header_events_headers|].
      unfold graphqlHandler in E. unfold bind at 1 in E. cbv beta iota in E.
      rewrite emit_headers in E.
      unfold set_statusCode, emit, bind, with_trace in E.
      cbn [trace store clock statusCode gqlResponse] in E.
      injection E as <- <-. cbn [trace].
      left. exists message. rewrite Hg, <- !app_assoc. reflexivity.
    + exists []. split; [constructor|].
      unfold graphqlHandler, bind, ret in E. injection E as <- <-.
      right. split; [reflexivity | exact Hg].
  - injection E as <- <-.
    destruct Hg as (hs & Hh & Ht). exists hs. split; [exact Hh|]. exact Ht.
Qed.
